(** * Sudoku-Solver: the constraint check, the backtracking search and the
      placement protocol of [main.py], embedded and verified.

    The board handed to [find_empty], [valid] and [Grid.solve] is a Python
    list of lists of ints; it is modelled as [list (list Z)] with row and
    column indices in [nat].  The source indexes with [bo[i][j]], which
    raises [IndexError] out of range; on the 9x9 boards the program builds
    ("will always be 9 x 9") no read is out of range, and the theorems
    that read a cell carry that shape as a hypothesis ([grid9] for a
    matrix, [Grid.wf] for a grid object).  *)

From Stdlib Require Import QArith Ascii.
From Stdlib Require SpecFloat.
From stdpp Require Import base tactics option list numbers strings pretty sorting.

Local Close Scope Q_scope.
Local Open Scope Z_scope.

(** ** The solving matrix *)

Abbreviation matrix := (list (list Z)).

(** [bo[0]], the row whose length bounds the column loops. *)
Definition row0 (bo : matrix) : list Z :=
  match bo !! 0%nat with Some r => r | None => [] end.

(** [bo[i][j]] *)
Definition cell (bo : matrix) (i j : nat) : Z :=
  match bo !! i with
  | Some r => match r !! j with Some v => v | None => 0 end
  | None => 0
  end.

(** [bo[i][j] = v], the in-place write to the list of lists. *)
Definition set_cell (bo : matrix) (i j : nat) (v : Z) : matrix :=
  alter (fun r => <[j := v]> r) i bo.

(** The shape of every matrix of the program: nine rows of nine cells. *)
Definition grid9 (bo : matrix) : bool :=
  (length bo =? 9)%nat && forallb (fun r => (length r =? 9)%nat) bo.

(** ** [find_empty] *)

(** [for j in range(len(bo[0])): if bo[i][j] == 0: return (i, j)] *)
Fixpoint find_empty_cols (bo : matrix) (i : nat) (js : list nat)
  : option (nat * nat) :=
  match js with
  | [] => None
  | j :: js' =>
      if cell bo i j =? 0 then Some (i, j) else find_empty_cols bo i js'
  end.

(** [for i in range(len(bo)): ...] *)
Fixpoint find_empty_rows (bo : matrix) (rs js : list nat)
  : option (nat * nat) :=
  match rs with
  | [] => None
  | i :: rs' =>
      match find_empty_cols bo i js with
      | Some p => Some p
      | None => find_empty_rows bo rs' js
      end
  end.

Definition find_empty (bo : matrix) : option (nat * nat) :=
  find_empty_rows bo (seq 0 (length bo)) (seq 0 (length (row0 bo))).

(** ** [valid] *)

(** [(i, j) != pos] is [negb (pos_eqb (i, j) pos)]. *)
Definition pos_eqb (p q : nat * nat) : bool :=
  (p.1 =? q.1)%nat && (p.2 =? q.2)%nat.

(** Each of the three loops returns [False] at the first clash; a loop
    that finds none falls through to the next. *)
Definition valid (bo : matrix) (num : Z) (pos : nat * nat) : bool :=
  (* Check row *)
  if existsb (fun i => (cell bo pos.1 i =? num) && negb (pos.2 =? i)%nat)
       (seq 0 (length (row0 bo)))
  then false
  (* Check column *)
  else if existsb (fun i => (cell bo i pos.2 =? num) && negb (pos.1 =? i)%nat)
            (seq 0 (length bo))
  then false
  else
    (* Check box *)
    let box_x := (pos.2 `div` 3)%nat in
    let box_y := (pos.1 `div` 3)%nat in
    if existsb (fun i =>
                  existsb (fun j => (cell bo i j =? num) && negb (pos_eqb (i, j) pos))
                    (seq (box_x * 3) 3))
         (seq (box_y * 3) 3)
    then false
    else true.

(** ** [Cube] *)

Module Cube.

(** [width] and [height] only serve the drawing code and are left out. *)
Record t := mk {
  value : Z;
  temp : Z;
  row : nat;
  col : nat;
  selected : bool
}.

(** [Cube(value, row, col, width, height)] *)
Definition init (v : Z) (r c : nat) : t := mk v 0 r c false.

Definition set (c : t) (val : Z) : t :=
  mk val (temp c) (row c) (col c) (selected c).

Definition set_temp (c : t) (val : Z) : t :=
  mk (value c) val (row c) (col c) (selected c).

(** [c.selected = b] *)
Definition set_selected (c : t) (b : bool) : t :=
  mk (value c) (temp c) (row c) (col c) b.

End Cube.

(** What a method call can come to: it returns, it raises the [TypeError]
    of unpacking [self.selected] when that is [None], or the bounded
    recursion of the model runs out of fuel. *)
Inductive outcome (A : Type) : Type :=
  | Return (a : A)
  | TypeError
  | OutOfFuel.
Arguments Return {A} a.
Arguments TypeError {A}.
Arguments OutOfFuel {A}.

(** What one [draw_change] call paints: the cell, the digit it shows and
    whether the border is green ([g=True], a trial) or red (a retreat).
    The calls are all [solve_gui] leaves on the window; the pacing delays
    are not modelled. *)
Inductive frame : Type :=
  | Frame (row col : nat) (shown : Z) (green : bool).

(** ** Python floats *)

(** [Grid.click] divides with [/] and [//], which give floats.  A Python
    float is an IEEE 754 double; the operations on doubles are those of
    [SpecFloat] at 53 bits of mantissa, every one the exact result rounded
    to nearest, ties to even. *)
Module PyFloat.
Import SpecFloat.

Definition prec : Z := 53.
Definition emax : Z := 1024.
Abbreviation float := spec_float.

(** What an expression over floats comes to: a value or one of the
    exceptions the arithmetic raises. *)
Inductive result (A : Type) : Type :=
  | Ok (a : A)
  | OverflowError
  | ZeroDivisionError
  | ValueError.
Arguments Ok {A} a.
Arguments OverflowError {A}.
Arguments ZeroDivisionError {A}.
Arguments ValueError {A}.

Definition bind {A B} (r : result A) (f : A -> result B) : result B :=
  match r with
  | Ok a => f a
  | OverflowError => OverflowError
  | ZeroDivisionError => ZeroDivisionError
  | ValueError => ValueError
  end.

Definition zero : float := S754_zero false.
Definition one : float := binary_normalize prec emax 1 0 false.
Definition half : float := binary_normalize prec emax 1 (-1) false.

Definition is_zero (x : float) : bool :=
  match x with S754_zero _ => true | _ => false end.

Definition sign (x : float) : bool :=
  match x with
  | S754_zero s | S754_infinity s | S754_finite s _ _ => s
  | S754_nan => false
  end.

(** A rounded result too large for a double raises [OverflowError]
    where Python converts or divides ints. *)
Definition finite (x : float) : result float :=
  match x with S754_infinity _ => OverflowError | _ => Ok x end.

(** The int [n] as the unrounded quotient [n * 2^0]. *)
Definition raw (n : Z) : float :=
  match n with
  | Z0 => S754_zero false
  | Zpos p => S754_finite false p 0
  | Zneg p => S754_finite true p 0
  end.

(** [float(n)] for an int [n], as [//] converts its left operand. *)
Definition of_int (n : Z) : result float :=
  finite (binary_normalize prec emax n 0 false).

(** [a / b] on ints: the quotient of the integers themselves, rounded
    once. *)
Definition int_truediv (a b : Z) : result float :=
  if b =? 0 then ZeroDivisionError
  else finite (SFdiv prec emax (raw a) (raw b)).

(** C's [fmod]: the remainder of the truncated quotient, exact, with the
    sign of [x]. *)
Definition fmod (x y : float) : float :=
  match x, y with
  | S754_nan, _ | _, S754_nan => S754_nan
  | S754_infinity _, _ | _, S754_zero _ => S754_nan
  | _, S754_infinity _ => x
  | S754_zero _, _ => x
  | S754_finite sx mx ex, S754_finite _ my ey =>
      let e := Z.min ex ey in
      let vx := Zpos mx * 2 ^ (ex - e) in
      let vy := Zpos my * 2 ^ (ey - e) in
      binary_normalize prec emax (cond_Zopp sx (vx `mod` vy)) e sx
  end.

(** C's [floor]; the floor of a double is a double. *)
Definition floor (x : float) : float :=
  match x with
  | S754_finite s m e =>
      if 0 <=? e then x
      else binary_normalize prec emax (cond_Zopp s (Zpos m) `div` 2 ^ (- e)) 0 s
  | _ => x
  end.

(** [copysign(0.0, x)] *)
Definition copysign0 (x : float) : float := S754_zero (sign x).

(** [vx // wx] on floats, as CPython computes it: the quotient of
    [vx - fmod(vx, wx)] by [wx], lowered by one when the remainder and the
    divisor differ in sign, then snapped to the nearest integer. *)
Definition floordiv (vx wx : float) : result float :=
  if is_zero wx then ZeroDivisionError
  else
    let mod_ := fmod vx wx in
    let div := SFdiv prec emax (SFsub prec emax vx mod_) wx in
    let div :=
      if negb (is_zero mod_) && negb (Bool.eqb (SFltb wx zero) (SFltb mod_ zero))
      then SFsub prec emax div one
      else div in
    if negb (is_zero div) then
      let fl := floor div in
      if SFltb half (SFsub prec emax div fl)
      then Ok (SFadd prec emax fl one)
      else Ok fl
    else Ok (copysign0 (SFdiv prec emax vx wx)).

(** [n // w] for an int [n] and a float [w]. *)
Definition int_floordiv_float (n : Z) (w : float) : result float :=
  bind (of_int n) (fun v => floordiv v w).

(** [int(x)] *)
Definition to_int (x : float) : result Z :=
  match x with
  | S754_zero _ => Ok 0
  | S754_infinity _ => OverflowError
  | S754_nan => ValueError
  | S754_finite s m e =>
      Ok (cond_Zopp s (if 0 <=? e then Zpos m * 2 ^ e else Zpos m `div` 2 ^ (- e)))
  end.

(** The double that holds the integer [n], for [0 < n < 2^53]: 53 bits of
    mantissa and the exponent that goes with them. *)
Definition Fpos (n : Z) : float :=
  let d := Z.log2 n + 1 in
  S754_finite false (Z.to_pos (n * 2 ^ (53 - d))) (d - 53).

Definition Fz (n : Z) : float := if n =? 0 then S754_zero false else Fpos n.

(** A mantissa and an exponent, not positive, that stand for the
    integer [a]. *)
Definition stands_for (m : positive) (e a : Z) : Prop :=
  e <= 0 /\ Zpos m = a * 2 ^ (- e).

End PyFloat.

(** ** [Grid] *)

Module Grid.

(** The window, the widgets, [board] and [mask_rate] are not read by the
    methods below and are left out. *)
Record t := mk {
  rows : nat;
  cols : nat;
  cubes : list (list Cube.t);
  model : matrix;
  selected : option (nat * nat)
}.

Definition with_model (g : t) (m : matrix) : t :=
  mk (rows g) (cols g) (cubes g) m (selected g).

Definition with_cubes (g : t) (cs : list (list Cube.t)) : t :=
  mk (rows g) (cols g) cs (model g) (selected g).

(** [self.cubes[i][j]]; in range on every grid that is [wf]. *)
Definition cube (g : t) (i j : nat) : Cube.t :=
  match cubes g !! i with
  | Some r => match r !! j with Some c => c | None => Cube.init 0 i j end
  | None => Cube.init 0 i j
  end.

(** [self.cubes[i][j].m(...)] for a mutating method [m] of the cube. *)
Definition upd_cube (g : t) (i j : nat) (f : Cube.t -> Cube.t) : t :=
  with_cubes g (alter (alter f j) i (cubes g)).

Definition update_model (g : t) : t :=
  with_model g
    ((fun i => (fun j => Cube.value (cube g i j)) <$> seq 0 (cols g))
       <$> seq 0 (rows g)).

(** [for i in range(1, 10): ...] of [solve], with [rec] the recursive
    [self.solve()].  The method mutates [self.model] and returns a bool:
    the object is threaded through and returned with the answer. *)
Fixpoint solve_loop (rec : t -> option (bool * t))
    (row col : nat) (ds : list Z) (g : t) : option (bool * t) :=
  match ds with
  | [] => Some (false, g)
  | i :: ds' =>
      if valid (model g) i (row, col) then
        match rec (with_model g (set_cell (model g) row col i)) with
        | None => None
        | Some (true, g') => Some (true, g')
        | Some (false, g') =>
            solve_loop rec row col ds'
              (with_model g' (set_cell (model g') row col 0))
        end
      else solve_loop rec row col ds' g
  end.

(** The recursion is bounded by [fuel]; [None] is "out of fuel". *)
Fixpoint solve (fuel : nat) (g : t) : option (bool * t) :=
  match fuel with
  | O => None
  | S fuel' =>
      match find_empty (model g) with
      | None => Some (true, g)
      | Some (row, col) => solve_loop (solve fuel') row col (seqZ 1 9) g
      end
  end.

(** The first two statements of the [if] branch of [place]. *)
Definition place_set (g : t) (row col : nat) (val : Z) : t :=
  update_model (upd_cube g row col (fun c => Cube.set c val)).

(** The [else] branch of [place]. *)
Definition place_undo (g : t) (row col : nat) : t :=
  update_model
    (upd_cube (upd_cube g row col (fun c => Cube.set c 0))
       row col (fun c => Cube.set_temp c 0)).

(** The result is Python's [True], [False] or, when the cell is already
    filled and the method falls off its end, [None]. *)
Definition place (fuel : nat) (g : t) (val : Z) : outcome (option bool * t) :=
  match selected g with
  | None => TypeError
  | Some (row, col) =>
      if Cube.value (cube g row col) =? 0 then
        let g1 := place_set g row col val in
        if valid (model g1) val (row, col) then
          match solve fuel g1 with
          | None => OutOfFuel
          | Some (true, g2) => Return (Some true, g2)
          | Some (false, g2) => Return (Some false, place_undo g2 row col)
          end
        else Return (Some false, place_undo g1 row col)
      else Return (None, g)
  end.

Definition sketch (g : t) (val : Z) : outcome t :=
  match selected g with
  | None => TypeError
  | Some (row, col) => Return (upd_cube g row col (fun c => Cube.set_temp c val))
  end.

Definition is_finished (g : t) : bool :=
  forallb (fun i =>
             forallb (fun j => negb (Cube.value (cube g i j) =? 0))
               (seq 0 (cols g)))
    (seq 0 (rows g)).

(** The shape the constructor gives every grid: [rows = cols = 9] and a
    9x9 array of cubes. *)
Definition wf (g : t) : bool :=
  (rows g =? 9)%nat && (cols g =? 9)%nat
  && (length (cubes g) =? 9)%nat
  && forallb (fun r => (length r =? 9)%nat) (cubes g).

(** [Grid.__init__] once [generate_board] has produced [bo]. *)
Definition init (bo : matrix) : t :=
  update_model
    (mk 9 9
       ((fun i => (fun j => Cube.init (cell bo i j) i j) <$> seq 0 9) <$> seq 0 9)
       [] None).

(** [select]: every cube is unselected (on a 9x9 array the two loops over
    [range(rows)] and [range(cols)] visit them all), then the chosen one
    is marked. *)
Definition select (g : t) (row col : nat) : t :=
  let cs := (fun r : list Cube.t => (fun c => Cube.set_selected c false) <$> r)
              <$> cubes g in
  mk (rows g) (cols g)
     (alter (alter (fun c => Cube.set_selected c true) col) row cs)
     (model g) (Some (row, col)).

(** [clear] *)
Definition clear (g : t) : outcome t :=
  match selected g with
  | None => TypeError
  | Some (row, col) =>
      if Cube.value (cube g row col) =? 0
      then Return (upd_cube g row col (fun c => Cube.set_temp c 0))
      else Return g
  end.

(** The two writes of a step of [solve_gui], [self.model[row][col] = v]
    and [self.cubes[row][col].set(v)], and the [update_model()] after
    them. *)
Definition gui_write (g : t) (row col : nat) (v : Z) : t :=
  update_model
    (upd_cube (with_model g (set_cell (model g) row col v))
       row col (fun c => Cube.set c v)).

(** [for i in range(1, 10): ...] of [solve_gui]; the frames are returned
    in the order they are painted. *)
Fixpoint solve_gui_loop (rec : t -> option (bool * t * list frame))
    (row col : nat) (ds : list Z) (g : t) : option (bool * t * list frame) :=
  match ds with
  | [] => Some (false, g, [])
  | i :: ds' =>
      if valid (model g) i (row, col) then
        let g1 := gui_write g row col i in
        let f1 := Frame row col (Cube.value (cube g1 row col)) true in
        match rec g1 with
        | None => None
        | Some (true, g2, tr) => Some (true, g2, f1 :: tr)
        | Some (false, g2, tr) =>
            let g3 := gui_write g2 row col 0 in
            let f3 := Frame row col (Cube.value (cube g3 row col)) false in
            match solve_gui_loop rec row col ds' g3 with
            | None => None
            | Some (b, g4, tr') => Some (b, g4, f1 :: tr ++ f3 :: tr')
            end
        end
      else solve_gui_loop rec row col ds' g
  end.

(** [solve_gui], bounded by [fuel] like [solve]. *)
Fixpoint solve_gui (fuel : nat) (g : t) : option (bool * t * list frame) :=
  match fuel with
  | O => None
  | S fuel' =>
      let g0 := update_model g in
      match find_empty (model g0) with
      | None => Some (true, g0, [])
      | Some (row, col) => solve_gui_loop (solve_gui fuel') row col (seqZ 1 9) g0
      end
  end.

(** [get_mask_rate]; the float literals are kept as the decimals
    they are written as, and an unknown name falls off the end of the
    method, which is Python's [None]. *)
Definition get_mask_rate (difficulty : string) : option Q :=
  if String.eqb difficulty "Easy" then Some (1 # 10)%Q
  else if String.eqb difficulty "Medium" then Some (3 # 10)%Q
  else if String.eqb difficulty "Hard" then Some (5 # 10)%Q
  else None.

(** [click], with [self.width] and [self.height] passed in.  The guard
    compares ints; [gap] and the two quotients are floats, and [int]
    brings them back.  [x] is computed before [y] and [int(y)] before
    [int(x)], which decides the exception when more than one is due. *)
Definition click (width height : Z) (pos : Z * Z) : PyFloat.result (option (Z * Z)) :=
  if (pos.1 <? width) && (pos.2 <? height) then
    PyFloat.bind (PyFloat.int_truediv width 9) (fun gap =>
    PyFloat.bind (PyFloat.int_floordiv_float pos.1 gap) (fun x =>
    PyFloat.bind (PyFloat.int_floordiv_float pos.2 gap) (fun y =>
    PyFloat.bind (PyFloat.to_int y) (fun row =>
    PyFloat.bind (PyFloat.to_int x) (fun col =>
    PyFloat.Ok (Some (row, col)))))))
  else PyFloat.Ok None.

End Grid.

(** ** The widgets *)

(** [l[i]] as Python indexes a list: from the end when [i] is negative,
    [None] for the [IndexError] out of range. *)
Definition py_index {A : Type} (l : list A) (i : Z) : option A :=
  if 0 <=? i then l !! Z.to_nat i
  else if - Z.of_nat (length l) <=? i then l !! Z.to_nat (Z.of_nat (length l) + i)
  else None.

Module Dropdown.

(** [color_scheme] only serves [draw] and is left out. *)
Record t := mk {
  pos_x : Z;
  pos_y : Z;
  width : Z;
  height : Z;
  options_list : list string;
  is_expanded : bool;
  current_index : Z
}.

(** [Dropdown(pos_x, pos_y, width, height, options_list, default_index)] *)
Definition init (x y w h : Z) (options : list string) (default_index : Z) : t :=
  mk x y w h options false default_index.

(** [click]: the outer [None] is the [IndexError] of
    [self.options_list[self.current_index]], the inner one the [None] the
    method returns when no option was chosen. *)
Definition click (d : t) (position : Z * Z) : option (option string * t) :=
  if (pos_x d <? position.1) && (position.1 <? pos_x d + width d) then
    if (pos_y d <? position.2) && (position.2 <? pos_y d + height d)
       && negb (is_expanded d)
    then Some (None, mk (pos_x d) (pos_y d) (width d) (height d) (options_list d)
                        (negb (is_expanded d)) (current_index d))
    else if (pos_y d + height d <? position.2)
            && (position.2 <? pos_y d + height d
                              * (Z.of_nat (length (options_list d)) + 1))
            && is_expanded d
    then
      let clicked_index := (position.2 - pos_y d - height d) / height d in
      let d' := mk (pos_x d) (pos_y d) (width d) (height d) (options_list d)
                   false clicked_index in
      match py_index (options_list d') (current_index d') with
      | Some o => Some (Some o, d')
      | None => None
      end
    else Some (None, d)
  else Some (None, d).

Definition get_selected_option (d : t) : option string :=
  py_index (options_list d) (current_index d).

(** The rectangle [draw] gives option [k] of an expanded dropdown holds
    the point [position]: [pygame.draw.rect] with
    [(pos_x, pos_y + (k+1)*height, width, height)] fills the columns
    [pos_x] up to, not including, [pos_x + width] and the rows
    [pos_y + (k+1)*height] up to, not including, [pos_y + (k+2)*height]. *)
Definition over_option (d : t) (k : nat) (position : Z * Z) : Prop :=
  pos_x d <= position.1 < pos_x d + width d
  /\ pos_y d + (Z.of_nat k + 1) * height d <= position.2
     < pos_y d + (Z.of_nat k + 2) * height d.

End Dropdown.

Module Button.

(** [button_color] and [font_style] only serve [draw] and are left out. *)
Record t := mk {
  button_x : Z;
  button_y : Z;
  button_width : Z;
  button_height : Z;
  button_label : string
}.

Definition click (b : t) (position : Z * Z) : bool :=
  (button_x b <? position.1) && (position.1 <? button_x b + button_width b)
  && (button_y b <? position.2) && (position.2 <? button_y b + button_height b).

End Button.

(** The widgets [Grid.__init__] creates. *)
Definition new_puzzle_button : Button.t := Button.mk 10 550 170 50 "New Puzzle".
Definition help_button : Button.t := Button.mk 300 550 40 40 "?".
Definition difficulty_dropdown : Dropdown.t :=
  Dropdown.init 185 550 100 50 ["Easy"; "Medium"; "Hard"]%string 1.

(** [WINDOW_WIDTH] and [WINDOW_HEIGHT - 230], the width and height
    [run_game] gives the grid. *)
Definition grid_width : Z := 540.
Definition grid_height : Z := 770 - 230.

(** ** [format_time] *)

(** [seconds], [minutes] and [hours] of [format_time], in the order of
    the text. *)
Definition time_fields (secs : Z) : Z * Z * Z :=
  let seconds := secs `mod` 60 in
  let minutes := (secs `div` 60) `mod` 60 in
  let hours := (secs `div` 60) `div` 60 in
  (hours, minutes, seconds).

(** [f"{hours} {minutes}:{seconds}"] *)
Definition format_time (secs : Z) : string :=
  let '(hours, minutes, seconds) := time_fields secs in
  pretty hours +:+ " " +:+ pretty minutes +:+ ":" +:+ pretty seconds.

(** The character [c] does not occur in [s]. *)
Fixpoint free_of (c : Ascii.ascii) (s : string) : bool :=
  match s with
  | EmptyString => true
  | String a s' => negb (Ascii.eqb a c) && free_of c s'
  end.

(** ** [Popup.wrap_text] *)

(** [s.split(sep)] for a one-character separator: every occurrence
    splits, and empty pieces are kept. *)
Fixpoint split_on (sep : Ascii.ascii) (s : string) : list string :=
  match s with
  | EmptyString => [EmptyString]
  | String ch s' =>
      if Ascii.eqb ch sep then EmptyString :: split_on sep s'
      else match split_on sep s' with
           | w :: ws => String ch w :: ws
           | [] => [String ch EmptyString]
           end
  end.

(** [' '.join(words)] *)
Definition join (words : list string) : string := String.concat " " words.

(** Python's truth test of a string: it is not empty. *)
Definition nonempty (s : string) : bool :=
  match s with EmptyString => false | String _ _ => true end.

(** The non-empty words of a line. *)
Definition words_of (line : string) : list string :=
  List.filter nonempty (split_on " " line).

Section WrapText.

(** [font.size(text)[0]], the width pygame gives a text, and the
    [max_width] argument. *)
Variable size : string -> Z.
Variable max_width : Z.

(** [while words: word = words.pop(0); ...], on [lines] and
    [current_line]. *)
Fixpoint wrap_words (words lines current_line : list string)
  : list string * list string :=
  match words with
  | [] => (lines, current_line)
  | word :: words' =>
      if nonempty word then
        let tentative_line := join (current_line ++ [word]) in
        if size tentative_line <=? max_width
        then wrap_words words' lines (current_line ++ [word])
        else wrap_words words' (lines ++ [join current_line]) [word]
      else wrap_words words' lines current_line
  end.

(** The body of [for paragraph in paragraphs]. *)
Definition wrap_paragraph (lines : list string) (paragraph : string) : list string :=
  let '(lines', current_line) := wrap_words (split_on " " paragraph) lines [] in
  match current_line with
  | [] => lines'
  | _ :: _ => lines' ++ [join current_line]
  end.

Definition wrap_text (text : string) : list string :=
  fold_left wrap_paragraph (split_on "010" text) [].

End WrapText.

(** ** The RETURN key in [run_game] *)

(** The message boxes the branch opens, by title. *)
Inductive message : Type := Success | Wrong | GameOver.

(** Python's truth test of what [place] returned: [None] is false. *)
Definition truthy (r : option bool) : bool :=
  match r with Some true => true | _ => false end.

(** The [K_RETURN] branch of the event loop, on the board and the strike
    counter; the messages are returned in the order they are shown.  The
    [key] the branch resets only feeds the sketching at the end of the
    frame and is not part of the model. *)
Definition on_return (fuel : nat) (g : Grid.t) (strikes : Z)
  : outcome (Grid.t * Z * list message) :=
  match Grid.selected g with
  | None => TypeError
  | Some (i, j) =>
      if negb (Cube.temp (Grid.cube g i j) =? 0) then
        match Grid.place fuel g (Cube.temp (Grid.cube g i j)) with
        | Return (r, g') =>
            Return (g',
                    (if truthy r then strikes else strikes + 1),
                    (if truthy r then [Success] else [Wrong])
                    ++ (if Grid.is_finished g' then [GameOver] else []))
        | TypeError => TypeError
        | OutOfFuel => OutOfFuel
        end
      else Return (g, strikes, [])
  end.

(** ** Vocabulary of the statements *)

(** The number of empty cells, the measure of the recursion of [solve]. *)
Definition count_empty (m : matrix) : nat :=
  sum_list ((fun r => length (filter (fun v => v = 0) r)) <$> m).

(** Two positions lie in a common row, column or 3x3 box. *)
Definition same_unit (i j i' j' : nat) : Prop :=
  i = i' \/ j = j' \/ ((i `div` 3)%nat = (i' `div` 3)%nat
                       /\ (j `div` 3)%nat = (j' `div` 3)%nat).

(** [num] occurs at a cell other than [(r, c)] in the row, the column or
    the box of [(r, c)]. *)
Definition clash (bo : matrix) (num : Z) (r c : nat) : Prop :=
  exists i j, (i < 9)%nat /\ (j < 9)%nat /\ (i, j) <> (r, c)
              /\ same_unit i j r c /\ cell bo i j = num.

(** [s] keeps every nonzero cell of [m]. *)
Definition keeps_givens (m s : matrix) : Prop :=
  forall i j, (i < 9)%nat -> (j < 9)%nat -> cell m i j <> 0 -> cell s i j = cell m i j.

(** A complete grid obeying the rules of Sudoku: digits 1..9 and no digit
    twice in a row, a column or a box. *)
Definition sudoku_solution (s : matrix) : Prop :=
  grid9 s = true
  /\ (forall i j, (i < 9)%nat -> (j < 9)%nat -> 1 <= cell s i j <= 9)
  /\ (forall i j, (i < 9)%nat -> (j < 9)%nat -> ~ clash s (cell s i j) i j).

(** Two nonzero cells of a common unit hold the same digit. *)
Definition givens_conflict (m : matrix) : Prop :=
  exists i j, (i < 9)%nat /\ (j < 9)%nat /\ cell m i j <> 0
              /\ clash m (cell m i j) i j.

(** What the search can reach from [m]: the cells empty in [m] are filled
    with digits 1..9 none of which clashes in the filled grid; the nonzero
    cells of [m] are kept, and never compared with each other. *)
Definition filling (m s : matrix) : Prop :=
  grid9 s = true
  /\ keeps_givens m s
  /\ (forall i j, (i < 9)%nat -> (j < 9)%nat -> cell m i j = 0 ->
        1 <= cell s i j <= 9 /\ ~ clash s (cell s i j) i j).

(** What a call of [solve] on [g] that answers [b] leaves: only
    [self.model] differs, it is still 9x9, and it is a filling of the old
    one on [True] and the old one itself on [False]. *)
Definition solve_post (g : Grid.t) (b : bool) (g' : Grid.t) : Prop :=
  g' = Grid.with_model g (Grid.model g')
  /\ grid9 (Grid.model g') = true
  /\ if b then filling (Grid.model g) (Grid.model g')
     else Grid.model g' = Grid.model g.

(** [p] comes before [q] in the row-major scan of [find_empty]. *)
Definition scanned_before (p q : nat * nat) : Prop :=
  (p.1 < q.1)%nat \/ (p.1 = q.1 /\ (p.2 < q.2)%nat).

(** The cubes of [g] showing the digits of [m], with [m] as the model:
    what the board looks like when [solve_gui] has brought the model
    to [m]. *)
Definition paint (g : Grid.t) (m : matrix) : Grid.t :=
  Grid.mk (Grid.rows g) (Grid.cols g)
    (imap (fun i r => imap (fun j c => Cube.set c (cell m i j)) r) (Grid.cubes g))
    m (Grid.selected g).




(** [s] comes before [t] in the order of the search: at the first cell of
    the row-major scan where they differ, [s] holds the smaller digit. *)
Definition lex_before (s t : matrix) : Prop :=
  exists r c, (r < 9)%nat /\ (c < 9)%nat /\ cell s r c < cell t r c
    /\ forall i j, (i < 9)%nat -> (j < 9)%nat ->
         scanned_before (i, j) (r, c) -> cell s i j = cell t i j.

(** ** Test boards *)

Definition solved_board : matrix :=
  [ [5;3;4;6;7;8;9;1;2];
    [6;7;2;1;9;5;3;4;8];
    [1;9;8;3;4;2;5;6;7];
    [8;5;9;7;6;1;4;2;3];
    [4;2;6;8;5;3;7;9;1];
    [7;1;3;9;2;4;8;5;6];
    [9;6;1;5;3;7;2;8;4];
    [2;8;7;4;1;9;6;3;5];
    [3;4;5;2;8;6;1;7;9] ].

(** [solved_board] with (2,3) and (4,7) emptied. *)
Definition two_holes : matrix :=
  set_cell (set_cell solved_board 4 7 0) 2 3 0.

(** Row 0 has room for 1 and 2 only in its first two cells, and both
    columns already hold a 1: the search writes a 2 at (0,0), fails at
    (0,1), and gives up. *)
Definition dead_end : matrix :=
  [ [0;0;3;4;5;6;7;8;9];
    [0;0;0;0;0;0;0;0;0];
    [0;0;0;0;0;0;0;0;0];
    [0;1;0;0;0;0;0;0;0];
    [0;0;0;0;0;0;0;0;0];
    [0;0;0;0;0;0;0;0;0];
    [1;0;0;0;0;0;0;0;0];
    [0;0;0;0;0;0;0;0;0];
    [0;0;0;0;0;0;0;0;0] ].

(** [solved_board] with a second 3 in row 0 and the last cell emptied. *)
Definition conflict_board : matrix :=
  set_cell (set_cell solved_board 0 0 3) 8 8 0.

(** [solved_board] with (0,0), (0,1) and (8,0) emptied: a 3 at (0,0)
    passes the local check and leaves no digit for (0,1). *)
Definition three_holes : matrix :=
  set_cell (set_cell (set_cell solved_board 8 0 0) 0 1 0) 0 0 0.

(** Two 4s in the first box, at (0,0) and (1,1), the rest empty. *)
Definition two_fours : matrix :=
  set_cell (set_cell (replicate 9 (replicate 9 0)) 0 0 4) 1 1 4.

(** [solved_board] with only (0,0), whose digit is 5, emptied. *)
Definition one_hole : matrix := set_cell solved_board 0 0 0.

(** The grid of a game on [bo] after the player clicked [(row, col)] and
    typed [key]: [Grid(...)], [select(row, col)], [sketch(key)]. *)
Definition game (bo : matrix) (row col : nat) (key : Z) : Grid.t :=
  match Grid.sketch (Grid.select (Grid.init bo) row col) key with
  | Return g => g
  | _ => Grid.init bo
  end.

(** ** Checkers for concrete boards *)

Definition all_cells (f : nat -> nat -> bool) : bool :=
  forallb (fun i => forallb (fun j => f i j) (seq 0 9)) (seq 0 9).

(** [s] is complete and [valid] accepts every cell of it. *)
Definition solution_check (s : matrix) : bool :=
  grid9 s
  && all_cells (fun i j =>
       (1 <=? cell s i j) && (cell s i j <=? 9) && valid s (cell s i j) (i, j)).

(** Every empty cell of [m] has the digit of [s] as its only candidate,
    and [s] keeps the givens of [m]. *)
Definition singles_check (m s : matrix) : bool :=
  all_cells (fun i j =>
    if cell m i j =? 0
    then forallb (fun d => implb (valid m d (i, j)) (d =? cell s i j)) (seqZ 1 9)
    else cell s i j =? cell m i j).

(** The givens of [m] are digits and [valid] accepts each of them where
    it stands. *)
Definition givens_check (m : matrix) : bool :=
  all_cells (fun i j =>
    (0 <=? cell m i j) && (cell m i j <=? 9)
    && ((cell m i j =? 0) || valid m (cell m i j) (i, j))).

(** ** Running the definitions *)

Example split_on_samples :
  split_on " " "" = [""]%string
  /\ split_on " " " a  b " = [""; "a"; ""; "b"; ""]%string
  /\ join ["a"; "b"; "c"]%string = "a b c"%string
  /\ join [] = ""%string.
Proof. by split_and!. Qed.

(** With every character one unit wide: a first word wider than the line
    is preceded by an empty line, and blank paragraphs vanish. *)
Example wrap_text_samples :
  wrap_text (fun s => Z.of_nat (String.length s)) 5 "abcdefgh xy"
  = [""; "abcdefgh"; "xy"]%string
  /\ wrap_text (fun s => Z.of_nat (String.length s)) 7
       (String.append "ab cd ef" (String "010" (String "010" "gh")))
     = ["ab cd"; "ef"; "gh"]%string
  /\ wrap_text (fun s => Z.of_nat (String.length s)) 7 "" = [].
Proof. by split_and!. Qed.

(** Clicks as the floats compute them.  On the 540 pixels of [run_game]
    the cells are 60 wide.  A width of 7 makes [gap] the double next above
    7/9, so that [7 // gap] is 8 where the exact quotient is 9; the quotient
    [(2^53 + 1)] of the third width is not a double and rounds to [2^53].
    A width of 0 lets only negative positions through and then divides by
    zero; an int beyond the doubles cannot be converted. *)
Example click_samples :
  Grid.click 540 540 (125, 539) = PyFloat.Ok (Some (8, 2))
  /\ Grid.click 7 100 (6, 7) = PyFloat.Ok (Some (8, 7))
  /\ Grid.click (9 * (2 ^ 53 + 1)) 1 (2 ^ 53, 0) = PyFloat.Ok (Some (0, 1))
  /\ Grid.click 540 540 (540, 0) = PyFloat.Ok None
  /\ Grid.click 540 540 (- 1, 0) = PyFloat.Ok (Some (0, - 1))
  /\ Grid.click 0 5 (- 1, 0) = PyFloat.ZeroDivisionError
  /\ Grid.click 540 540 (- 10 ^ 400, 0) = PyFloat.OverflowError.
Proof. by vm_compute. Qed.

Example solved_board_shape : grid9 solved_board = true.
Proof. reflexivity. Qed.

Example find_empty_solved : find_empty solved_board = None.
Proof. reflexivity. Qed.

Example find_empty_hole : find_empty two_holes = Some (2%nat, 3%nat).
Proof. reflexivity. Qed.

Example valid_hole :
  valid two_holes 3 (2%nat, 3%nat) = true
  /\ valid two_holes 4 (2%nat, 3%nat) = false.
Proof. split; reflexivity. Qed.

Example valid_two_fours : valid two_fours 4 (0%nat, 0%nat) = false.
Proof. reflexivity. Qed.

Example place_one_hole :
  match Grid.place 82 (game one_hole 0 0 5) 5, Grid.place 82 (game one_hole 0 0 3) 3 with
  | Return (Some true, g5), Return (Some false, g3) =>
      Grid.is_finished g5 = true /\ Cube.value (Grid.cube g3 0 0) = 0
  | _, _ => False
  end.
Proof. vm_compute. split; reflexivity. Qed.

Example solve_two_holes :
  Grid.model <$> (snd <$> Grid.solve 3 (Grid.init two_holes)) = Some solved_board.
Proof. vm_compute. reflexivity. Qed.

Example place_two_holes :
  match Grid.place 3 (game two_holes 2 3 3) 3 with
  | Return (Some true, g') =>
      Grid.model g' = solved_board /\ Grid.is_finished g' = false
  | _ => False
  end.
Proof. vm_compute. split; reflexivity. Qed.

Example solve_dead_end :
  Grid.solve 3 (Grid.init dead_end) = Some (false, Grid.init dead_end).
Proof. vm_compute. reflexivity. Qed.

Example solve_conflict_board :
  Grid.model <$> (snd <$> Grid.solve 2 (Grid.init conflict_board))
  = Some (set_cell solved_board 0 0 3).
Proof. vm_compute. reflexivity. Qed.

Example place_three_holes :
  valid three_holes 3 (0%nat, 0%nat) = true
  /\ fst <$> (match Grid.place 82 (game three_holes 0 0 3) 3 with
               | Return r => Some r | _ => None end) = Some (Some false)
  /\ fst <$> (match Grid.place 82 (game three_holes 0 0 5) 5 with
               | Return r => Some r | _ => None end) = Some (Some true).
Proof. vm_compute. split_and!; reflexivity. Qed.

Example checks :
  solution_check solved_board = true
  /\ singles_check two_holes solved_board = true
  /\ solution_check (set_cell solved_board 0 0 3) = false.
Proof. vm_compute. split_and!; reflexivity. Qed.

(** ** Reads and writes of the matrix *)

Section Matrix.
Implicit Types (bo m s : matrix) (i j r c : nat) (v w num : Z).

Lemma grid9_length bo : grid9 bo = true -> length bo = 9%nat.
Proof.
  unfold grid9. intros [H _]%andb_prop. by apply Nat.eqb_eq in H.
Qed.

Lemma grid9_row bo i (l : list Z) :
  grid9 bo = true -> bo !! i = Some l -> length l = 9%nat.
Proof.
  unfold grid9. intros [_ H]%andb_prop Hr.
  rewrite forallb_forall in H.
  apply Nat.eqb_eq, H, list_elem_of_In. by eapply list_elem_of_lookup_2.
Qed.

Lemma grid9_row0 bo : grid9 bo = true -> length (row0 bo) = 9%nat.
Proof.
  intros H. unfold row0.
  destruct (bo !! 0%nat) as [r|] eqn:Hr; [by eapply grid9_row|].
  apply lookup_ge_None_1 in Hr. apply grid9_length in H. lia.
Qed.

Lemma grid9_intro bo :
  length bo = 9%nat -> (forall i (l : list Z), bo !! i = Some l -> length l = 9%nat) ->
  grid9 bo = true.
Proof.
  intros Hl Hr. unfold grid9. apply andb_true_intro. split.
  - by apply Nat.eqb_eq.
  - apply forallb_forall. intros r [i Hi]%list_elem_of_In%list_elem_of_lookup_1.
    apply Nat.eqb_eq. by eapply Hr.
Qed.

Lemma grid9_set_cell bo i j v : grid9 bo = true -> grid9 (set_cell bo i j v) = true.
Proof.
  intros H. apply grid9_intro.
  - unfold set_cell. rewrite length_alter. by apply grid9_length.
  - intros k r. unfold set_cell. destruct (decide (i = k)) as [->|Hne].
    + rewrite list_lookup_alter_eq. destruct (bo !! k) as [r'|] eqn:Hk; [|done].
      intros [= <-]. rewrite length_insert. by eapply grid9_row.
    + rewrite list_lookup_alter_ne by done. by apply grid9_row.
Qed.

Lemma cell_set_cell_eq bo i j v :
  grid9 bo = true -> (i < 9)%nat -> (j < 9)%nat -> cell (set_cell bo i j v) i j = v.
Proof.
  intros H Hi Hj. unfold cell, set_cell. rewrite list_lookup_alter_eq.
  destruct (bo !! i) as [r|] eqn:Hr.
  - simpl. rewrite list_lookup_insert_eq; [done|].
    erewrite grid9_row by done. done.
  - apply lookup_ge_None_1 in Hr. apply grid9_length in H. lia.
Qed.

Lemma cell_set_cell_ne bo i j v i' j' :
  (i, j) <> (i', j') -> cell (set_cell bo i j v) i' j' = cell bo i' j'.
Proof.
  intros Hne. unfold cell, set_cell. destruct (decide (i = i')) as [->|Hi].
  - rewrite list_lookup_alter_eq. destruct (bo !! i') as [r|]; [|done].
    simpl. rewrite list_lookup_insert_ne; [done|]. congruence.
  - by rewrite list_lookup_alter_ne.
Qed.

Lemma set_cell_set_cell bo i j v w :
  set_cell (set_cell bo i j v) i j w = set_cell bo i j w.
Proof.
  unfold set_cell. rewrite list_alter_alter_eq.
  apply list_alter_ext; [|done]. intros l _. simpl. apply list_insert_insert_eq.
Qed.

Lemma set_cell_same bo i j : cell bo i j = 0 -> set_cell bo i j 0 = bo.
Proof.
  unfold cell, set_cell. intros H. apply list_eq. intros k.
  destruct (decide (i = k)) as [->|Hne]; [|by rewrite list_lookup_alter_ne].
  rewrite list_lookup_alter_eq. destruct (bo !! k) as [r|]; [|done].
  simpl. f_equal. destruct (r !! j) as [x|] eqn:Hj.
  - apply list_insert_id. congruence.
  - apply list_insert_ge. by apply lookup_ge_None_1.
Qed.

(** Writing a digit into an empty cell and emptying it again gives the
    matrix back. *)
Lemma set_cell_undo bo i j v :
  cell bo i j = 0 -> set_cell (set_cell bo i j v) i j 0 = bo.
Proof. intros H. rewrite set_cell_set_cell. by apply set_cell_same. Qed.

(** Two 9x9 matrices with the same cells are the same list of lists. *)
Lemma matrix_ext m s :
  grid9 m = true -> grid9 s = true ->
  (forall i j, (i < 9)%nat -> (j < 9)%nat -> cell m i j = cell s i j) -> m = s.
Proof.
  intros Hm Hs H.
  apply (list_eq_same_length _ _ 9%nat); [by apply grid9_length..|].
  intros i l l' Hi Hl Hl'.
  apply (list_eq_same_length _ _ 9%nat);
    [exact (grid9_row s i l' Hs Hl') | exact (grid9_row m i l Hm Hl) |].
  intros j x y Hj Hx Hy. specialize (H i j Hi Hj). unfold cell in H.
  rewrite Hl, Hl', Hx, Hy in H. done.
Qed.

End Matrix.

(** ** [find_empty] returns an empty cell, or there is none *)

Section FindEmpty.
Implicit Types (bo : matrix) (i j r c : nat) (rs js : list nat).

Lemma find_empty_cols_Some bo i js r c :
  find_empty_cols bo i js = Some (r, c) -> r = i /\ In c js /\ cell bo r c = 0.
Proof.
  induction js as [|j js IH]; simpl; [done|].
  destruct (cell bo i j =? 0) eqn:E.
  - intros [= <- <-]. apply Z.eqb_eq in E. auto.
  - intros H. destruct (IH H) as (? & ? & ?). auto.
Qed.

Lemma find_empty_cols_None bo i js j :
  find_empty_cols bo i js = None -> In j js -> cell bo i j <> 0.
Proof.
  induction js as [|j' js IH]; simpl; [done|].
  destruct (cell bo i j' =? 0) eqn:E; [done|].
  intros H [->|Hin]; [by apply Z.eqb_neq|by apply IH].
Qed.

Lemma find_empty_rows_Some bo rs js r c :
  find_empty_rows bo rs js = Some (r, c) -> In r rs /\ In c js /\ cell bo r c = 0.
Proof.
  induction rs as [|i rs IH]; simpl; [done|].
  destruct (find_empty_cols bo i js) as [p|] eqn:E.
  - intros [= ->]. apply find_empty_cols_Some in E as (-> & ? & ?). auto.
  - intros H. destruct (IH H) as (? & ? & ?). auto.
Qed.

Lemma find_empty_rows_None bo rs js i j :
  find_empty_rows bo rs js = None -> In i rs -> In j js -> cell bo i j <> 0.
Proof.
  induction rs as [|i' rs IH]; simpl; [done|].
  destruct (find_empty_cols bo i' js) as [p|] eqn:E; [done|].
  intros H [->|Hin] Hj; [by eapply find_empty_cols_None|by apply IH].
Qed.

Lemma find_empty_Some bo r c :
  grid9 bo = true -> find_empty bo = Some (r, c) ->
  (r < 9)%nat /\ (c < 9)%nat /\ cell bo r c = 0.
Proof.
  intros Hg. unfold find_empty.
  rewrite (grid9_length _ Hg), (grid9_row0 _ Hg).
  intros (Hr & Hc & H0)%find_empty_rows_Some.
  apply in_seq in Hr, Hc. split_and!; [lia..|done].
Qed.

Lemma find_empty_None bo i j :
  grid9 bo = true -> find_empty bo = None ->
  (i < 9)%nat -> (j < 9)%nat -> cell bo i j <> 0.
Proof.
  intros Hg. unfold find_empty.
  rewrite (grid9_length _ Hg), (grid9_row0 _ Hg).
  intros H Hi Hj. eapply find_empty_rows_None; [done|apply in_seq; lia..].
Qed.

(** A matrix without a zero in range has no empty cell to return. *)
Lemma find_empty_full bo :
  grid9 bo = true ->
  (forall i j, (i < 9)%nat -> (j < 9)%nat -> cell bo i j <> 0) ->
  find_empty bo = None.
Proof.
  intros Hg H. destruct (find_empty bo) as [[r c]|] eqn:E; [|done].
  apply find_empty_Some in E as (Hr & Hc & H0); [|done]. by destruct (H r c).
Qed.

End FindEmpty.

(** ** [valid] answers [False] exactly on a clash *)

Section Valid.
Implicit Types (bo : matrix) (i j r c : nat) (num : Z).

Lemma valid_row_loop bo num r c n :
  existsb (fun i => (cell bo r i =? num) && negb (c =? i)%nat) (seq 0 n) = true
  <-> exists j, (j < n)%nat /\ j <> c /\ cell bo r j = num.
Proof.
  rewrite existsb_exists. split.
  - intros (j & Hj%in_seq & [He Hn]%andb_prop).
    exists j. apply Z.eqb_eq in He. apply negb_true_iff, Nat.eqb_neq in Hn.
    split_and!; [lia|congruence|done].
  - intros (j & Hj & Hn & He). exists j. split; [apply in_seq; lia|].
    apply andb_true_intro. split; [by apply Z.eqb_eq|].
    apply negb_true_iff, Nat.eqb_neq. congruence.
Qed.

Lemma valid_col_loop bo num r c n :
  existsb (fun i => (cell bo i c =? num) && negb (r =? i)%nat) (seq 0 n) = true
  <-> exists i, (i < n)%nat /\ i <> r /\ cell bo i c = num.
Proof.
  rewrite existsb_exists. split.
  - intros (i & Hi%in_seq & [He Hn]%andb_prop).
    exists i. apply Z.eqb_eq in He. apply negb_true_iff, Nat.eqb_neq in Hn.
    split_and!; [lia|congruence|done].
  - intros (i & Hi & Hn & He). exists i. split; [apply in_seq; lia|].
    apply andb_true_intro. split; [by apply Z.eqb_eq|].
    apply negb_true_iff, Nat.eqb_neq. congruence.
Qed.

Lemma pos_eqb_eq (p q : nat * nat) : pos_eqb p q = true <-> p = q.
Proof.
  destruct p as [a b], q as [a' b']. unfold pos_eqb. simpl.
  rewrite andb_true_iff, !Nat.eqb_eq. split; [intros [-> ->]|intros [= -> ->]]; done.
Qed.

Lemma valid_box_loop bo num r c y x :
  existsb (fun i =>
             existsb (fun j => (cell bo i j =? num) && negb (pos_eqb (i, j) (r, c)))
               (seq (x * 3) 3))
    (seq (y * 3) 3) = true
  <-> exists i j, (y * 3 <= i < y * 3 + 3)%nat /\ (x * 3 <= j < x * 3 + 3)%nat
                  /\ (i, j) <> (r, c) /\ cell bo i j = num.
Proof.
  rewrite existsb_exists. split.
  - intros (i & Hi%in_seq & (j & Hj%in_seq & [He Hn]%andb_prop)%existsb_exists).
    exists i, j. apply Z.eqb_eq in He. apply negb_true_iff in Hn.
    split_and!; [lia..| |done].
    intros Heq%pos_eqb_eq. congruence.
  - intros (i & j & Hi & Hj & Hn & He). exists i. split; [apply in_seq; lia|].
    apply existsb_exists. exists j. split; [apply in_seq; lia|].
    apply andb_true_intro. split; [by apply Z.eqb_eq|].
    apply negb_true_iff. destruct (pos_eqb (i, j) (r, c)) eqn:E; [|done].
    by apply pos_eqb_eq in E.
Qed.

Lemma div3_bounds (a b : nat) :
  ((b `div` 3) * 3 <= a < (b `div` 3) * 3 + 3)%nat <-> (a `div` 3 = b `div` 3)%nat.
Proof.
  pose proof (Nat.div_mod_eq a 3). pose proof (Nat.div_mod_eq b 3).
  pose proof (Nat.mod_upper_bound a 3). pose proof (Nat.mod_upper_bound b 3).
  lia.
Qed.

Lemma valid_false_clash bo num r c :
  grid9 bo = true -> (r < 9)%nat -> (c < 9)%nat ->
  valid bo num (r, c) = false <-> clash bo num r c.
Proof.
  intros Hg Hr Hc. unfold valid, clash, same_unit. cbn [fst snd].
  rewrite (grid9_length _ Hg), (grid9_row0 _ Hg).
  pose proof (valid_row_loop bo num r c 9) as Hrow.
  pose proof (valid_col_loop bo num r c 9) as Hcol.
  pose proof (valid_box_loop bo num r c (r `div` 3) (c `div` 3)) as Hbox.
  destruct (existsb _ (seq 0 9)) eqn:E1 in |- *.
  { split; [intros _|done]. destruct (proj1 Hrow E1) as (j & ? & ? & ?).
    exists r, j. split_and!; [done..|congruence|by left|done]. }
  destruct (existsb _ (seq 0 9)) eqn:E2 in |- *.
  { split; [intros _|done]. destruct (proj1 Hcol E2) as (i & ? & ? & ?).
    exists i, c. split_and!; [done..|congruence|by right; left|done]. }
  match goal with
  | |- context [existsb ?f (seq ?a 3)] => destruct (existsb f (seq a 3)) eqn:E3
  end.
  { split; [intros _|done]. destruct (proj1 Hbox eq_refl) as (i & j & Hi & Hj & ? & ?).
    apply div3_bounds in Hi, Hj.
    exists i, j. split_and!; [| |done|by right; right|done].
    - assert (i `div` 3 < 3)%nat as Hlt
        by (rewrite Hi; apply Nat.Div0.div_lt_upper_bound; lia).
      pose proof (Nat.div_mod_eq i 3). pose proof (Nat.mod_upper_bound i 3). lia.
    - assert (j `div` 3 < 3)%nat as Hlt
        by (rewrite Hj; apply Nat.Div0.div_lt_upper_bound; lia).
      pose proof (Nat.div_mod_eq j 3). pose proof (Nat.mod_upper_bound j 3). lia. }
  split; [done|]. intros (i & j & Hi & Hj & Hne & Hu & He).
  destruct Hu as [->|[->|[Hy Hx]]].
  - assert (existsb (fun i => (cell bo r i =? num) && negb (c =? i)%nat) (seq 0 9) = true)
      as Ht; [|congruence].
    apply Hrow. exists j. split_and!; [done|congruence|done].
  - assert (existsb (fun i => (cell bo i c =? num) && negb (r =? i)%nat) (seq 0 9) = true)
      as Ht; [|congruence].
    apply Hcol. exists i. split_and!; [done|congruence|done].
  - assert (false = true) as Ht; [|done].
    apply Hbox. exists i, j. split_and!; [by apply div3_bounds..|done|done].
Qed.

End Valid.

(** ** Clashes under writes *)

Section Clash.
Implicit Types (bo m s : matrix) (i j r c : nat) (v num : Z).

Lemma same_unit_sym i j i' j' : same_unit i j i' j' -> same_unit i' j' i j.
Proof. unfold same_unit. intuition congruence. Qed.

Lemma valid_true_no_clash bo num r c :
  grid9 bo = true -> (r < 9)%nat -> (c < 9)%nat ->
  valid bo num (r, c) = true <-> ~ clash bo num r c.
Proof.
  intros Hg Hr Hc. rewrite <- (valid_false_clash bo num r c Hg Hr Hc).
  destruct (valid bo num (r, c)); split; congruence.
Qed.

(** The clashes of a position do not depend on what the position holds. *)
Lemma clash_set_cell_self bo num r c v :
  clash (set_cell bo r c v) num r c <-> clash bo num r c.
Proof.
  unfold clash. split; intros (i & j & Hi & Hj & Hne & Hu & He); exists i, j;
    (split_and!; [done..|]).
  - rewrite cell_set_cell_ne in He by congruence. done.
  - rewrite cell_set_cell_ne by congruence. done.
Qed.

(** If [(r, c)] sees [num] at [(i, j)], then [(i, j)] sees what [(r, c)]
    holds. *)
Lemma clash_sym bo r c i j :
  (r < 9)%nat -> (c < 9)%nat -> (i, j) <> (r, c) -> same_unit i j r c ->
  cell bo i j = cell bo r c -> clash bo (cell bo i j) i j.
Proof.
  intros Hr Hc Hne Hu He. exists r, c.
  split_and!; [done..|congruence|by apply same_unit_sym|done].
Qed.

End Clash.

(** ** The measure: empty cells *)

Section CountEmpty.
Implicit Types (m : matrix) (l : list Z) (i j : nat) (v : Z).

Lemma count_zero_insert l j v :
  l !! j = Some 0 -> v <> 0 ->
  length (filter (fun x => x = 0) l)
  = S (length (filter (fun x => x = 0) (<[j := v]> l))).
Proof.
  revert j. induction l as [|x l IH]; intros j Hj Hv; [done|].
  destruct j as [|j]; simpl in *.
  - injection Hj as ->. rewrite !filter_cons.
    destruct (decide (0 = 0)); [|done]. destruct (decide (v = 0)); [done|].
    done.
  - rewrite !filter_cons. destruct (decide (x = 0)); simpl; rewrite (IH j); done.
Qed.

Lemma count_empty_set_cell m i j v :
  grid9 m = true -> (i < 9)%nat -> (j < 9)%nat -> cell m i j = 0 -> v <> 0 ->
  count_empty m = S (count_empty (set_cell m i j v)).
Proof.
  intros Hg Hi Hj H0 Hv.
  assert (exists l, m !! i = Some l /\ l !! j = Some 0) as (l & Hl & Hlj).
  { destruct (m !! i) as [l|] eqn:Hl.
    - exists l. split; [done|]. unfold cell in H0. rewrite Hl in H0.
      destruct (l !! j) as [x|] eqn:Hx; [congruence|].
      apply lookup_ge_None_1 in Hx. rewrite (grid9_row m i l Hg Hl) in Hx. lia.
    - apply lookup_ge_None_1 in Hl. rewrite (grid9_length m Hg) in Hl. lia. }
  clear Hg Hi Hj H0. unfold count_empty, set_cell.
  revert i Hl. induction m as [|l' m IH]; intros i Hl; [done|].
  destruct i as [|i]; simpl in *.
  - injection Hl as ->. rewrite (count_zero_insert l j v Hlj Hv). done.
  - specialize (IH i Hl). unfold fmap, alter in IH. lia.
Qed.

End CountEmpty.

(** ** Fillings: what a successful search leaves behind *)

Section Filling.
Implicit Types (m s : matrix) (i j r c : nat) (d : Z).

Lemma filling_full m :
  grid9 m = true -> find_empty m = None -> filling m m.
Proof.
  intros Hg Hn. split_and!; [done|by intros ????|].
  intros i j Hi Hj H0. by destruct (find_empty_None m i j Hg Hn Hi Hj).
Qed.

(** The digit the search wrote at [(r, c)] stays legal in every filling
    of the matrix that holds it. *)
Lemma filling_step m s r c d :
  grid9 m = true -> (r < 9)%nat -> (c < 9)%nat -> cell m r c = 0 ->
  1 <= d <= 9 -> valid m d (r, c) = true ->
  filling (set_cell m r c d) s -> filling m s.
Proof.
  intros Hg Hr Hc H0 Hd Hv (Hs & Hk & Hf).
  assert (cell s r c = d) as Hsd.
  { rewrite (Hk r c Hr Hc); rewrite cell_set_cell_eq by done; [done|lia]. }
  assert (keeps_givens m s) as Hk'.
  { intros i j Hi Hj Hne.
    assert ((r, c) <> (i, j)) as Hp by (intros [= -> ->]; done).
    rewrite <- (cell_set_cell_ne m r c d i j Hp). apply Hk; [done..|].
    by rewrite cell_set_cell_ne. }
  split_and!; [done..|]. intros i j Hi Hj Hz.
  destruct (decide ((i, j) = (r, c))) as [[= -> ->]|Hp].
  - rewrite Hsd. split; [done|].
    intros (i' & j' & Hi' & Hj' & Hne & Hu & He).
    destruct (decide (cell m i' j' = 0)) as [Hz'|Hnz'].
    + destruct (Hf i' j' Hi' Hj') as [_ Hno].
      { by rewrite cell_set_cell_ne. }
      apply Hno. apply clash_sym with r c; [done..|congruence].
    + apply (valid_true_no_clash m d r c Hg Hr Hc) in Hv. apply Hv.
      exists i', j'. split_and!; [done..|]. rewrite <- (Hk' i' j'); done.
  - apply Hf; [done..|]. rewrite cell_set_cell_ne; [done|congruence].
Qed.

(** A filling of [m] is a filling of [m] with one of its digits written. *)
Lemma filling_down m s r c :
  grid9 m = true -> (r < 9)%nat -> (c < 9)%nat -> cell m r c = 0 ->
  filling m s -> filling (set_cell m r c (cell s r c)) s.
Proof.
  intros Hg Hr Hc H0 (Hs & Hk & Hf). split_and!; [done| |].
  - intros i j Hi Hj Hne. destruct (decide ((r, c) = (i, j))) as [[= <- <-]|Hp].
    + by rewrite cell_set_cell_eq.
    + rewrite cell_set_cell_ne in * by done. by apply Hk.
  - intros i j Hi Hj Hz. destruct (decide ((r, c) = (i, j))) as [[= <- <-]|Hp].
    + rewrite cell_set_cell_eq in Hz by done.
      destruct (Hf r c Hr Hc H0) as [? _]. lia.
    + rewrite cell_set_cell_ne in Hz by done. by apply Hf.
Qed.

(** The digit of a filling at an empty cell passes the check. *)
Lemma filling_valid m s r c :
  grid9 m = true -> (r < 9)%nat -> (c < 9)%nat -> cell m r c = 0 ->
  filling m s -> valid m (cell s r c) (r, c) = true.
Proof.
  intros Hg Hr Hc H0 (Hs & Hk & Hf).
  destruct (Hf r c Hr Hc H0) as [Hd Hno].
  apply valid_true_no_clash; [done..|].
  intros (i & j & Hi & Hj & Hne & Hu & He). apply Hno.
  exists i, j. split_and!; [done..|]. rewrite Hk; [done..|lia].
Qed.

Lemma filling_digit m s r c :
  (r < 9)%nat -> (c < 9)%nat -> cell m r c = 0 -> filling m s ->
  cell s r c ∈ seqZ 1 9.
Proof.
  intros Hr Hc H0 (_ & _ & Hf). destruct (Hf r c Hr Hc H0) as [Hd _].
  apply elem_of_seqZ. lia.
Qed.

End Filling.

(** A filling of consistent givens obeys the rules of Sudoku. *)
Lemma filling_consistent m s :
  (forall i j, (i < 9)%nat -> (j < 9)%nat -> 0 <= cell m i j <= 9) ->
  ~ givens_conflict m -> filling m s -> sudoku_solution s.
Proof.
  intros Hrange Hcons (Hg & Hk & Hf). split_and!; [done| |]; intros i j Hi Hj.
  - destruct (decide (cell m i j = 0)) as [Hz|Hnz]; [by apply Hf|].
    rewrite Hk by done. specialize (Hrange i j Hi Hj). lia.
  - destruct (decide (cell m i j = 0)) as [Hz|Hnz]; [by apply Hf|].
    intros (i' & j' & Hi' & Hj' & Hp & Hu & He).
    destruct (decide (cell m i' j' = 0)) as [Hz'|Hnz'].
    + destruct (Hf i' j' Hi' Hj' Hz') as [_ Hno]. apply Hno.
      exists i, j. split_and!; [done..|congruence|by apply same_unit_sym|done].
    + apply Hcons. exists i, j. split_and!; [done..|].
      exists i', j'. split_and!; [done..|]. rewrite <- !Hk by done. done.
Qed.

(** ** The search: what it returns *)

Lemma with_model_id (g : Grid.t) : Grid.with_model g (Grid.model g) = g.
Proof. by destruct g. Qed.

Lemma with_model_model (g : Grid.t) m : Grid.model (Grid.with_model g m) = m.
Proof. done. Qed.

Lemma with_model_twice (g : Grid.t) m m' :
  Grid.with_model (Grid.with_model g m) m' = Grid.with_model g m'.
Proof. done. Qed.

Lemma solve_post_false g g' : solve_post g false g' -> g' = g.
Proof. intros (Hg & _ & Hm). rewrite Hg, Hm. apply with_model_id. Qed.

Section SolveLoop.
Variable rec : Grid.t -> option (bool * Grid.t).
Variables (g : Grid.t) (row col : nat).
Hypothesis rec_post : forall x b x',
  grid9 (Grid.model x) = true -> rec x = Some (b, x') -> solve_post x b x'.
Hypothesis g_shape : grid9 (Grid.model g) = true.
Hypothesis row_lt : (row < 9)%nat.
Hypothesis col_lt : (col < 9)%nat.
Hypothesis g_empty : cell (Grid.model g) row col = 0.

Lemma solve_loop_post ds b g' :
  Forall (fun d => 1 <= d <= 9) ds ->
  Grid.solve_loop rec row col ds g = Some (b, g') -> solve_post g b g'.
Proof.
  induction ds as [|d ds IH]; intros Hds; simpl.
  - intros [= <- <-]. split_and!; [by rewrite with_model_id|done|done].
  - apply Forall_cons_1 in Hds as [Hd Hds].
    destruct (valid (Grid.model g) d (row, col)) eqn:Hv; [|by apply IH].
    destruct (rec (Grid.with_model g (set_cell (Grid.model g) row col d)))
      as [[[] g1]|] eqn:Hrec; [| |done].
    + intros [= <- <-]. apply rec_post in Hrec as (Hg1 & Hs1 & Hf1);
        [|by apply grid9_set_cell].
      split_and!; [by rewrite Hg1|done|]. simpl in Hf1.
      by apply (filling_step _ _ row col d).
    + apply rec_post in Hrec; [|by apply grid9_set_cell].
      apply solve_post_false in Hrec as ->.
      rewrite with_model_model, with_model_twice, set_cell_undo by done.
      rewrite with_model_id. by apply IH.
Qed.

Variable n : nat.
Hypothesis rec_runs : forall x,
  grid9 (Grid.model x) = true -> (count_empty (Grid.model x) < n)%nat ->
  exists b x', rec x = Some (b, x')
               /\ ((exists s, filling (Grid.model x) s) -> b = true).
Hypothesis g_count : (count_empty (Grid.model g) <= n)%nat.

Lemma solve_loop_runs ds :
  Forall (fun d => 1 <= d <= 9) ds ->
  (forall s, filling (Grid.model g) s -> cell s row col ∈ ds) ->
  exists b g', Grid.solve_loop rec row col ds g = Some (b, g')
               /\ ((exists s, filling (Grid.model g) s) -> b = true).
Proof.
  induction ds as [|d ds IH]; intros Hds Hin; simpl.
  - exists false, g. split; [done|]. intros [s Hs]. by apply Hin, elem_of_nil in Hs.
  - apply Forall_cons_1 in Hds as [Hd Hds].
    destruct (valid (Grid.model g) d (row, col)) eqn:Hv.
    + destruct (rec_runs (Grid.with_model g (set_cell (Grid.model g) row col d)))
        as (b1 & g1 & Hrec & Hb1).
      { by apply grid9_set_cell. }
      { rewrite with_model_model.
        pose proof (count_empty_set_cell (Grid.model g) row col d
                      g_shape row_lt col_lt g_empty).
        lia. }
      rewrite Hrec. destruct b1.
      * exists true, g1. done.
      * pose proof Hrec as Hp. apply rec_post in Hp; [|by apply grid9_set_cell].
        apply solve_post_false in Hp as ->.
        rewrite with_model_model, with_model_twice, set_cell_undo by done.
        rewrite with_model_id. apply IH; [done|].
        intros s Hs. destruct (proj1 (elem_of_cons _ _ _) (Hin s Hs)) as [Heq|Hin']; [|done].
        assert (false = true); [|done]. apply Hb1. exists s.
        rewrite with_model_model, <- Heq. by apply filling_down.
    + apply IH; [done|]. intros s Hs.
      destruct (proj1 (elem_of_cons _ _ _) (Hin s Hs)) as [<-|Hin']; [|done].
      rewrite filling_valid in Hv by done. done.
Qed.

End SolveLoop.

Lemma digits_range : Forall (fun d => 1 <= d <= 9) (seqZ 1 9).
Proof. repeat constructor; lia. Qed.

Lemma solve_unfold fuel g :
  Grid.solve (S fuel) g
  = match find_empty (Grid.model g) with
    | None => Some (true, g)
    | Some (row, col) => Grid.solve_loop (Grid.solve fuel) row col (seqZ 1 9) g
    end.
Proof. done. Qed.

(** Partial correctness, for any fuel. *)
Lemma solve_returns_post fuel g b g' :
  grid9 (Grid.model g) = true ->
  Grid.solve fuel g = Some (b, g') -> solve_post g b g'.
Proof.
  revert g b g'. induction fuel as [|fuel IH]; intros g b g' Hg; [done|].
  rewrite solve_unfold.
  destruct (find_empty (Grid.model g)) as [[r c]|] eqn:Hfind.
  - apply find_empty_Some in Hfind as (Hr & Hc & H0); [|done].
    apply solve_loop_post; [done..|apply digits_range].
  - intros [= <- <-]. split_and!; [by rewrite with_model_id|done|].
    by apply filling_full.
Qed.

(** With more fuel than empty cells the search returns, and it answers
    [True] whenever a filling exists. *)
Lemma solve_runs fuel g :
  grid9 (Grid.model g) = true -> (count_empty (Grid.model g) < fuel)%nat ->
  exists b g', Grid.solve fuel g = Some (b, g')
               /\ ((exists s, filling (Grid.model g) s) -> b = true).
Proof.
  revert g. induction fuel as [|fuel IH]; intros g Hg Hlt; [lia|].
  rewrite solve_unfold.
  destruct (find_empty (Grid.model g)) as [[r c]|] eqn:Hfind.
  - apply find_empty_Some in Hfind as (Hr & Hc & H0); [|done].
    apply solve_loop_runs with fuel; [|done..| |lia|apply digits_range|].
    + intros x b x'. apply solve_returns_post.
    + apply IH.
    + intros s Hs. by eapply filling_digit.
  - exists true, g. done.
Qed.

(** ** Cubes and the model derived from them *)

Section Cubes.
Implicit Types (g : Grid.t) (i j r c : nat) (f : Cube.t -> Cube.t).

Lemma wf_rows g : Grid.wf g = true -> Grid.rows g = 9%nat.
Proof.
  unfold Grid.wf. rewrite !andb_true_iff, !Nat.eqb_eq. tauto.
Qed.

Lemma wf_cols g : Grid.wf g = true -> Grid.cols g = 9%nat.
Proof.
  unfold Grid.wf. rewrite !andb_true_iff, !Nat.eqb_eq. tauto.
Qed.

Lemma wf_lookup g i j :
  Grid.wf g = true -> (i < 9)%nat -> (j < 9)%nat ->
  exists l, Grid.cubes g !! i = Some l /\ (j < length l)%nat.
Proof.
  unfold Grid.wf. rewrite !andb_true_iff, !Nat.eqb_eq, forallb_forall.
  intros [[[_ _] Hl] Hr] Hi Hj.
  destruct (lookup_lt_is_Some_2 (Grid.cubes g) i) as [l Hli]; [lia|].
  exists l. split; [done|].
  assert (length l = 9%nat) as ->; [|done].
  apply Nat.eqb_eq, Hr, list_elem_of_In. by eapply list_elem_of_lookup_2.
Qed.

Lemma cube_update_model g i j :
  Grid.cube (Grid.update_model g) i j = Grid.cube g i j.
Proof. done. Qed.

Lemma cube_with_model g m i j :
  Grid.cube (Grid.with_model g m) i j = Grid.cube g i j.
Proof. done. Qed.

Lemma cube_upd_cube_eq g r c f :
  Grid.wf g = true -> (r < 9)%nat -> (c < 9)%nat ->
  Grid.cube (Grid.upd_cube g r c f) r c = f (Grid.cube g r c).
Proof.
  intros Hw Hr Hc. destruct (wf_lookup g r c Hw Hr Hc) as (l & Hl & Hlt).
  destruct (lookup_lt_is_Some_2 l c Hlt) as [x Hx].
  unfold Grid.cube, Grid.upd_cube. simpl.
  rewrite list_lookup_alter_eq, Hl. simpl.
  rewrite list_lookup_alter_eq, Hx. done.
Qed.

Lemma cube_upd_cube_ne g r c f i j :
  (r, c) <> (i, j) -> Grid.cube (Grid.upd_cube g r c f) i j = Grid.cube g i j.
Proof.
  intros Hne. unfold Grid.cube, Grid.upd_cube. simpl.
  destruct (decide (r = i)) as [->|Hi].
  - rewrite list_lookup_alter_eq. destruct (Grid.cubes g !! i) as [l|]; [|done].
    simpl. rewrite list_lookup_alter_ne; [done|congruence].
  - by rewrite list_lookup_alter_ne.
Qed.

Lemma wf_upd_cube g r c f : Grid.wf g = true -> Grid.wf (Grid.upd_cube g r c f) = true.
Proof.
  unfold Grid.wf. simpl. rewrite !andb_true_iff, !Nat.eqb_eq, !forallb_forall.
  intros [[[Hrows Hcols] Hl] Hr]. split_and!; [done..|by rewrite length_alter|].
  intros l [k Hk]%list_elem_of_In%list_elem_of_lookup_1. apply Nat.eqb_eq.
  destruct (decide (r = k)) as [->|Hne].
  - rewrite list_lookup_alter_eq in Hk.
    destruct (Grid.cubes g !! k) as [l'|] eqn:Hl'; [|done].
    injection Hk as <-. rewrite length_alter.
    apply Nat.eqb_eq, Hr, list_elem_of_In. by eapply list_elem_of_lookup_2.
  - rewrite list_lookup_alter_ne in Hk by done.
    apply Nat.eqb_eq, Hr, list_elem_of_In. by eapply list_elem_of_lookup_2.
Qed.

Lemma wf_update_model g : Grid.wf (Grid.update_model g) = Grid.wf g.
Proof. done. Qed.

Lemma wf_with_model g m : Grid.wf (Grid.with_model g m) = Grid.wf g.
Proof. done. Qed.

(** After [update_model] the model reads the values of the cubes. *)
Lemma cell_update_model g i j :
  Grid.wf g = true -> (i < 9)%nat -> (j < 9)%nat ->
  cell (Grid.model (Grid.update_model g)) i j = Cube.value (Grid.cube g i j).
Proof.
  intros Hw Hi Hj. unfold Grid.update_model. rewrite with_model_model.
  rewrite (wf_rows g Hw), (wf_cols g Hw). unfold cell.
  rewrite list_lookup_fmap, lookup_seq_lt by done.
  cbn [fmap option_fmap option_map].
  rewrite list_lookup_fmap, lookup_seq_lt by done. done.
Qed.

Lemma grid9_update_model g :
  Grid.wf g = true -> grid9 (Grid.model (Grid.update_model g)) = true.
Proof.
  intros Hw. unfold Grid.update_model. rewrite with_model_model.
  rewrite (wf_rows g Hw), (wf_cols g Hw). apply grid9_intro.
  - done.
  - intros i l. rewrite list_lookup_fmap.
    destruct (seq 0 9 !! i); [|done]. by intros [= <-].
Qed.

End Cubes.

(** ** Checkers are sound *)

Lemma forallb_seq (f : nat -> bool) n :
  forallb f (seq 0 n) = true <-> forall i, (i < n)%nat -> f i = true.
Proof.
  rewrite forallb_forall. split.
  - intros H i Hi. apply H, in_seq. lia.
  - intros H i Hi%in_seq. apply H. lia.
Qed.

Lemma all_cells_true f :
  all_cells f = true <-> forall i j, (i < 9)%nat -> (j < 9)%nat -> f i j = true.
Proof.
  unfold all_cells. rewrite forallb_seq. split.
  - intros H i j Hi Hj. specialize (H i Hi). rewrite forallb_seq in H. by apply H.
  - intros H i Hi. apply forallb_seq. intros j Hj. by apply H.
Qed.

Lemma solution_check_sound s : solution_check s = true -> sudoku_solution s.
Proof.
  unfold solution_check. intros [Hg H]%andb_prop.
  rewrite all_cells_true in H. split_and!; [done| |]; intros i j Hi Hj;
    specialize (H i j Hi Hj); apply andb_prop in H as [[H1 H2]%andb_prop Hv].
  - lia.
  - by apply valid_true_no_clash.
Qed.

(** A solution is in particular a filling of whatever it completes. *)
Lemma solution_filling m s :
  sudoku_solution s -> keeps_givens m s -> filling m s.
Proof.
  intros (Hg & Hd & Hc) Hk. split_and!; [done..|]. intros i j Hi Hj _. auto.
Qed.

Lemma singles_check_sound m s s' :
  grid9 m = true -> grid9 s = true -> singles_check m s = true ->
  sudoku_solution s' -> keeps_givens m s' -> s' = s.
Proof.
  intros Hm Hs Hchk Hsol Hk. unfold singles_check in Hchk.
  rewrite all_cells_true in Hchk.
  apply matrix_ext; [by destruct Hsol|done|]. intros i j Hi Hj.
  specialize (Hchk i j Hi Hj). destruct (cell m i j =? 0) eqn:Hz.
  - apply Z.eqb_eq in Hz. rewrite forallb_forall in Hchk.
    pose proof (solution_filling m s' Hsol Hk) as Hf.
    specialize (Hchk (cell s' i j)).
    rewrite (filling_valid m s' i j Hm Hi Hj Hz Hf) in Hchk.
    apply Z.eqb_eq, Hchk, list_elem_of_In. by eapply filling_digit.
  - apply Z.eqb_neq in Hz. apply Z.eqb_eq in Hchk. rewrite Hchk. by apply Hk.
Qed.

(** ** Bound on the measure *)

Lemma count_zero_rows (m : matrix) :
  (forall l : list Z, l ∈ m -> length l = 9%nat) ->
  (count_empty m <= 9 * length m)%nat.
Proof.
  unfold count_empty. induction m as [|l m IH]; intros Hrows; simpl; [lia|].
  pose proof (length_filter (fun v : Z => v = 0) l) as Hle.
  rewrite (Hrows l) in Hle by (by left).
  assert (forall l' : list Z, l' ∈ m -> length l' = 9%nat) as Hrows'.
  { intros l' Hl'. apply Hrows. by right. }
  specialize (IH Hrows'). unfold fmap in *. lia.
Qed.

Lemma count_empty_bound m : grid9 m = true -> (count_empty m <= 81)%nat.
Proof.
  intros Hg. pose proof (grid9_length m Hg) as Hl.
  assert (forall l : list Z, l ∈ m -> length l = 9%nat) as Hrows.
  { intros l [i Hi]%list_elem_of_lookup_1. by eapply grid9_row. }
  pose proof (count_zero_rows m Hrows). lia.
Qed.

Lemma singles_check_keeps m s : singles_check m s = true -> keeps_givens m s.
Proof.
  unfold singles_check. rewrite all_cells_true. intros H i j Hi Hj Hne.
  specialize (H i j Hi Hj). apply Z.eqb_neq in Hne. rewrite Hne in H.
  by apply Z.eqb_eq.
Qed.


(** What [True] leaves is a solution whenever the givens admit one. *)
Lemma filling_solution m s s' :
  sudoku_solution s -> keeps_givens m s -> filling m s' -> sudoku_solution s'.
Proof.
  intros (Hg & Hd & Hc) Hk (Hg' & Hk' & Hf').
  assert (forall i j, (i < 9)%nat -> (j < 9)%nat -> cell m i j <> 0 ->
                      cell s' i j = cell s i j) as Hsame.
  { intros i j Hi Hj Hne. rewrite Hk, Hk'; done. }
  split_and!; [done| |]; intros i j Hi Hj.
  - destruct (decide (cell m i j = 0)) as [Hz|Hnz]; [by apply Hf'|].
    rewrite Hsame by done. by apply Hd.
  - destruct (decide (cell m i j = 0)) as [Hz|Hnz]; [by apply Hf'|].
    intros (i' & j' & Hi' & Hj' & Hp & Hu & He).
    destruct (decide (cell m i' j' = 0)) as [Hz'|Hnz'].
    + destruct (Hf' i' j' Hi' Hj' Hz') as [_ Hno]. apply Hno.
      exists i, j. split_and!; [done..|congruence|by apply same_unit_sym|done].
    + apply (Hc i j Hi Hj). exists i', j'. split_and!; [done..|].
      rewrite <- !Hsame by done. done.
Qed.

(** ** The constraint check *)

(** C1. On a 9x9 grid and a position inside it, [valid] answers [False]
    if and only if the digit occurs at some other cell of the position's
    row, column or 3x3 box; the cell at the position itself is not
    compared, so the answer is the same when it already holds the digit. *)
Theorem valid_false_iff_digit_elsewhere bo num row col :
  grid9 bo = true -> (row < 9)%nat -> (col < 9)%nat ->
  (valid bo num (row, col) = false <-> clash bo num row col)
  /\ valid (set_cell bo row col num) num (row, col) = valid bo num (row, col).
Proof.
  intros Hg Hr Hc. split; [by apply valid_false_clash|].
  pose proof (grid9_set_cell bo row col num Hg) as Hg'.
  pose proof (valid_false_clash bo num row col Hg Hr Hc) as H1.
  pose proof (valid_false_clash _ num row col Hg' Hr Hc) as H2.
  rewrite clash_set_cell_self in H2.
  destruct (valid bo num (row, col)), (valid (set_cell bo row col num) num (row, col));
    try done.
  - symmetry. apply H1, H2. done.
  - apply H2, H1. done.
Qed.

Lemma valid_false_iff_digit_elsewhere_witness :
  (valid two_holes 4 (2%nat, 3%nat) = false <-> clash two_holes 4 2 3)
  /\ valid (set_cell two_holes 2 3 4) 4 (2%nat, 3%nat)
     = valid two_holes 4 (2%nat, 3%nat).
Proof.
  apply (valid_false_iff_digit_elsewhere two_holes 4 2 3); [reflexivity|lia|lia].
Defined.

(** ** The silent search *)

(** C2. Whenever [solve] answers [False], the grid object it returns is
    the one it was called on: every cell of the model the search wrote
    is back to its value before the call. *)
Theorem solve_exhausted_restores fuel g g' :
  grid9 (Grid.model g) = true ->
  Grid.solve fuel g = Some (false, g') -> g' = g.
Proof.
  intros Hg Hs. by apply solve_post_false, (solve_returns_post fuel).
Qed.

Lemma solve_exhausted_restores_witness :
  exists g', Grid.solve 3 (Grid.init dead_end) = Some (false, g')
             /\ g' = Grid.init dead_end.
Proof.
  eexists. split; [vm_compute; reflexivity|].
  apply (solve_exhausted_restores 3 (Grid.init dead_end));
    [reflexivity|vm_compute; reflexivity].
Defined.

(** C9. On a 9x9 grid the search terminates with an answer: any fuel
    above the number of empty cells, which is at most 81, is enough, since
    every recursive call is made on a model with fewer empty cells. *)
Theorem solve_terminates g fuel :
  grid9 (Grid.model g) = true -> (count_empty (Grid.model g) < fuel)%nat ->
  (exists b g', Grid.solve fuel g = Some (b, g'))
  /\ (count_empty (Grid.model g) <= 81)%nat
  /\ (forall row col d,
        find_empty (Grid.model g) = Some (row, col) -> 1 <= d <= 9 ->
        (count_empty (set_cell (Grid.model g) row col d)
         < count_empty (Grid.model g))%nat).
Proof.
  intros Hg Hlt. split_and!.
  - destruct (solve_runs fuel g Hg Hlt) as (b & g' & Hs & _). by exists b, g'.
  - by apply count_empty_bound.
  - intros row col d (Hr & Hc & H0)%find_empty_Some Hd; [|done].
    rewrite (count_empty_set_cell (Grid.model g) row col d); [lia|done..|lia].
Qed.

Lemma solve_terminates_witness :
  exists b g', Grid.solve 3 (Grid.init two_holes) = Some (b, g').
Proof.
  apply (solve_terminates (Grid.init two_holes) 3); [reflexivity|vm_compute; lia].
Defined.

(** C10. Whatever the answer, the search leaves every cell that was
    nonzero at the call with its value: the cell it writes is the one
    [find_empty] returned, which holds 0, and nothing but the model
    changes. *)
Theorem solve_keeps_filled_cells g fuel :
  grid9 (Grid.model g) = true -> (count_empty (Grid.model g) < fuel)%nat ->
  (forall row col,
     find_empty (Grid.model g) = Some (row, col) -> cell (Grid.model g) row col = 0)
  /\ exists b g', Grid.solve fuel g = Some (b, g')
                  /\ keeps_givens (Grid.model g) (Grid.model g')
                  /\ Grid.cubes g' = Grid.cubes g.
Proof.
  intros Hg Hlt. split.
  - intros row col (_ & _ & H0)%find_empty_Some; done.
  - destruct (solve_runs fuel g Hg Hlt) as (b & g' & Hs & _). exists b, g'.
    split; [done|]. apply solve_returns_post in Hs as (Hg' & _ & Hb); [|done].
    split; [|by rewrite Hg'].
    destruct b; [by destruct Hb as (_ & Hk & _)|]. rewrite Hb. by intros ????.
Qed.

Lemma solve_keeps_filled_cells_witness :
  exists b g', Grid.solve 3 (Grid.init two_holes) = Some (b, g')
               /\ keeps_givens two_holes (Grid.model g')
               /\ Grid.cubes g' = Grid.cubes (Grid.init two_holes).
Proof.
  apply (solve_keeps_filled_cells (Grid.init two_holes) 3);
    [reflexivity|vm_compute; lia].
Defined.

(** C3. If the model has exactly one completion [s] obeying the rules of
    Sudoku, the search answers [True] and leaves [s] in the model; a
    further call on the solved grid answers [True] at once, whatever the
    fuel, with the grid untouched. *)
Theorem solve_unique_solution g s fuel :
  grid9 (Grid.model g) = true ->
  sudoku_solution s -> keeps_givens (Grid.model g) s ->
  (forall s', sudoku_solution s' -> keeps_givens (Grid.model g) s' -> s' = s) ->
  (count_empty (Grid.model g) < fuel)%nat ->
  exists g', Grid.solve fuel g = Some (true, g')
             /\ Grid.model g' = s
             /\ forall fuel', Grid.solve (S fuel') g' = Some (true, g').
Proof.
  intros Hg Hsol Hk Huniq Hlt.
  destruct (solve_runs fuel g Hg Hlt) as (b & g' & Hs & Hb).
  rewrite Hb in Hs by (exists s; by apply solution_filling).
  exists g'. split; [done|].
  apply solve_returns_post in Hs as (_ & Hg' & Hf); [|done].
  assert (Grid.model g' = s) as Hm.
  { apply Huniq; [by apply (filling_solution (Grid.model g) s)|by destruct Hf as (_ & ? & _)]. }
  split; [done|]. intros fuel'. rewrite solve_unfold, find_empty_full; [done..|].
  rewrite Hm. intros i j Hi Hj. destruct Hsol as (_ & Hd & _).
  specialize (Hd i j Hi Hj). lia.
Qed.

Lemma solve_unique_solution_witness :
  exists g', Grid.solve 3 (Grid.init two_holes) = Some (true, g')
             /\ Grid.model g' = solved_board
             /\ forall fuel', Grid.solve (S fuel') g' = Some (true, g').
Proof.
  apply (solve_unique_solution (Grid.init two_holes) solved_board 3).
  - reflexivity.
  - apply solution_check_sound. vm_compute. reflexivity.
  - apply singles_check_keeps. vm_compute. reflexivity.
  - intros s'. apply singles_check_sound; vm_compute; reflexivity.
  - vm_compute. lia.
Defined.





(** ** Placement *)

Section Place.
Variables (g : Grid.t) (row col : nat) (val : Z).
Hypothesis g_wf : Grid.wf g = true.
Hypothesis g_selected : Grid.selected g = Some (row, col).
Hypothesis row_lt : (row < 9)%nat.
Hypothesis col_lt : (col < 9)%nat.

(** The grid after [set(val)] and [update_model()]. *)
Local Abbreviation g1 := (Grid.place_set g row col val).

Lemma place_g1_wf : Grid.wf g1 = true.
Proof. unfold Grid.place_set. rewrite wf_update_model. by apply wf_upd_cube. Qed.

Lemma place_g1_shape : grid9 (Grid.model g1) = true.
Proof. apply grid9_update_model. by apply wf_upd_cube. Qed.

Lemma place_g1_cube_sel : Grid.cube g1 row col = Cube.set (Grid.cube g row col) val.
Proof. unfold Grid.place_set. rewrite cube_update_model. by apply cube_upd_cube_eq. Qed.

Lemma place_g1_cube_other i j :
  (i, j) <> (row, col) -> Grid.cube g1 i j = Grid.cube g i j.
Proof.
  intros Hne. unfold Grid.place_set. rewrite cube_update_model.
  apply cube_upd_cube_ne. congruence.
Qed.

Lemma place_g1_cell i j :
  (i < 9)%nat -> (j < 9)%nat ->
  cell (Grid.model g1) i j
  = if decide ((i, j) = (row, col)) then val else Cube.value (Grid.cube g i j).
Proof.
  intros Hi Hj. unfold Grid.place_set. rewrite cell_update_model by (done || by apply wf_upd_cube).
  destruct (decide ((i, j) = (row, col))) as [[= -> ->]|Hne].
  - by rewrite cube_upd_cube_eq.
  - rewrite cube_upd_cube_ne; [done|congruence].
Qed.

(** [place] answers [True] only on an empty cell, after both checks. *)
Lemma place_committed fuel g' :
  Grid.place fuel g val = Return (Some true, g') ->
  Cube.value (Grid.cube g row col) = 0
  /\ valid (Grid.model g1) val (row, col) = true
  /\ Grid.solve fuel g1 = Some (true, g').
Proof.
  unfold Grid.place. rewrite g_selected.
  destruct (Cube.value (Grid.cube g row col) =? 0) eqn:Hz; [|done].
  apply Z.eqb_eq in Hz.
  destruct (valid (Grid.model g1) val (row, col)); [|done].
  destruct (Grid.solve fuel g1) as [[[] g2]|]; [|done..].
  by intros [= <-].
Qed.

(** [place] answers [False] only on an empty cell, and then it has run
    its [else] branch on the grid as [set(val)] left it. *)
Lemma place_rejected fuel g' :
  Grid.place fuel g val = Return (Some false, g') ->
  Cube.value (Grid.cube g row col) = 0
  /\ g' = Grid.place_undo g1 row col
  /\ (valid (Grid.model g1) val (row, col) = false
      \/ Grid.solve fuel g1 = Some (false, g1)).
Proof.
  unfold Grid.place. rewrite g_selected.
  destruct (Cube.value (Grid.cube g row col) =? 0) eqn:Hz; [|done].
  apply Z.eqb_eq in Hz.
  destruct (valid (Grid.model g1) val (row, col)); [|intros [= <-]; auto].
  destruct (Grid.solve fuel g1) as [[[] g2]|] eqn:Hs; [done| |done].
  apply solve_returns_post, solve_post_false in Hs as ->; [|apply place_g1_shape].
  intros [= <-]. auto.
Qed.

Lemma place_undo_cube_sel :
  Grid.cube (Grid.place_undo g1 row col) row col
  = Cube.set_temp (Cube.set (Cube.set (Grid.cube g row col) val) 0) 0.
Proof.
  unfold Grid.place_undo. rewrite cube_update_model.
  rewrite cube_upd_cube_eq by (done || apply wf_upd_cube, place_g1_wf).
  rewrite cube_upd_cube_eq by (done || apply place_g1_wf).
  by rewrite place_g1_cube_sel.
Qed.

Lemma place_undo_cube_other i j :
  (i, j) <> (row, col) ->
  Grid.cube (Grid.place_undo g1 row col) i j = Grid.cube g i j.
Proof.
  intros Hne. unfold Grid.place_undo. rewrite cube_update_model.
  rewrite !cube_upd_cube_ne by congruence. by apply place_g1_cube_other.
Qed.

Lemma place_undo_wf : Grid.wf (Grid.place_undo g1 row col) = true.
Proof.
  unfold Grid.place_undo. rewrite wf_update_model.
  apply wf_upd_cube, wf_upd_cube, place_g1_wf.
Qed.

Lemma place_undo_cell i j :
  (i < 9)%nat -> (j < 9)%nat ->
  cell (Grid.model (Grid.place_undo g1 row col)) i j
  = Cube.value (Grid.cube (Grid.place_undo g1 row col) i j).
Proof.
  intros Hi Hj. unfold Grid.place_undo at 1.
  rewrite cell_update_model; [done| |done..].
  apply wf_upd_cube, wf_upd_cube, place_g1_wf.
Qed.

(** With fuel for 81 empty cells [place] returns. *)
Lemma place_returns fuel :
  (81 < fuel)%nat -> exists r g', Grid.place fuel g val = Return (r, g').
Proof.
  intros Hfuel. unfold Grid.place. rewrite g_selected.
  destruct (Cube.value (Grid.cube g row col) =? 0); [|by eauto].
  destruct (valid (Grid.model g1) val (row, col)); [|by eauto].
  destruct (solve_runs fuel g1) as (b & g2 & -> & _).
  - apply place_g1_shape.
  - pose proof (count_empty_bound _ place_g1_shape). lia.
  - destruct b; eauto.
Qed.

End Place.

(** C6. When [place] answers [False], for the local check or for the
    failed probe, the selected cell reads empty, its temp mark is 0, every
    other cube is as before the call, and the model again reads the values
    of the cubes, which are those from before the call. *)
Theorem place_rejected_reverts fuel g val row col g' :
  Grid.wf g = true -> Grid.selected g = Some (row, col) ->
  (row < 9)%nat -> (col < 9)%nat ->
  Grid.place fuel g val = Return (Some false, g') ->
  Cube.value (Grid.cube g' row col) = 0
  /\ Cube.temp (Grid.cube g' row col) = 0
  /\ (forall i j, (i, j) <> (row, col) -> Grid.cube g' i j = Grid.cube g i j)
  /\ (forall i j, (i < 9)%nat -> (j < 9)%nat ->
        Cube.value (Grid.cube g' i j) = Cube.value (Grid.cube g i j)
        /\ cell (Grid.model g') i j = Cube.value (Grid.cube g i j))
  /\ Grid.selected g' = Grid.selected g
  /\ Grid.wf g' = true.
Proof.
  intros Hw Hsel Hr Hc Hp.
  destruct (place_rejected g row col val Hw Hsel fuel g' Hp) as (Hz & -> & _).
  pose proof (place_undo_cube_sel g row col val Hw Hr Hc) as Hcs.
  pose proof (place_undo_cube_other g row col val) as Hco.
  assert (forall i j, (i < 9)%nat -> (j < 9)%nat ->
            Cube.value (Grid.cube (Grid.place_undo (Grid.place_set g row col val) row col) i j) = Cube.value (Grid.cube g i j)) as Hval.
  { intros i j Hi Hj. destruct (decide ((i, j) = (row, col))) as [[= -> ->]|Hne].
    - by rewrite Hcs, Hz.
    - by rewrite Hco. }
  split_and!.
  - by rewrite Hcs.
  - by rewrite Hcs.
  - done.
  - intros i j Hi Hj. split; [by apply Hval|].
    rewrite (place_undo_cell g row col val Hw i j Hi Hj). by apply Hval.
  - done.
  - by apply place_undo_wf.
Qed.

Lemma place_rejected_reverts_witness :
  exists g', Grid.place 82 (game three_holes 0 0 3) 3 = Return (Some false, g')
             /\ Cube.value (Grid.cube g' 0 0) = 0
             /\ Cube.temp (Grid.cube g' 0 0) = 0.
Proof.
  eexists. split; [vm_compute; reflexivity|].
  edestruct (place_rejected_reverts 82 (game three_holes 0 0 3) 3 0 0)
    as (Hv & Ht & _); [reflexivity|reflexivity|lia|lia|vm_compute; reflexivity|].
  split; [exact Hv|exact Ht].
Defined.

(** C7. On a selected cell whose value is nonzero [place] does nothing:
    it falls off its end, returning [None] (neither [True] nor [False]),
    and the grid, values, temp marks and model, is the one it was given. *)
Theorem place_filled_cell_noop fuel g val row col :
  Grid.selected g = Some (row, col) ->
  Cube.value (Grid.cube g row col) <> 0 ->
  Grid.place fuel g val = Return (None, g).
Proof.
  intros Hsel Hne. unfold Grid.place. rewrite Hsel.
  apply Z.eqb_neq in Hne. by rewrite Hne.
Qed.

Lemma place_filled_cell_noop_witness :
  Grid.place 82 (game two_holes 0 0 9) 9 = Return (None, game two_holes 0 0 9).
Proof.
  apply (place_filled_cell_noop 82 (game two_holes 0 0 9) 9 0 0);
    [reflexivity|by vm_compute].
Defined.

(** C5, as the code has it. When [place] answers [True] the full
    solution the probe found is in [self.model]: the model is what the
    probe's [solve] left on answering [True], a filling of the board with
    the digit placed, so that every cell that was empty holds a digit
    1..9 that clashes with nothing in its row, column and box, every
    filled cell and the digit placed are kept, and the whole obeys the
    rules of Sudoku when the board with the digit placed had no clash.
    Among the cubes, which the drawing code and [is_finished] read, only
    the selected one has changed, to the digit placed. *)
Theorem place_committed_solution_in_model fuel g val row col g' :
  Grid.wf g = true -> Grid.selected g = Some (row, col) ->
  (row < 9)%nat -> (col < 9)%nat ->
  Grid.place fuel g val = Return (Some true, g') ->
  Grid.solve fuel (Grid.place_set g row col val) = Some (true, g')
  /\ filling (Grid.model (Grid.place_set g row col val)) (Grid.model g')
  /\ (forall i j, (i < 9)%nat -> (j < 9)%nat ->
        Cube.value (Grid.cube g i j) = 0 -> (i, j) <> (row, col) ->
        1 <= cell (Grid.model g') i j <= 9
        /\ ~ clash (Grid.model g') (cell (Grid.model g') i j) i j)
  /\ ((forall i j, (i < 9)%nat -> (j < 9)%nat ->
         0 <= cell (Grid.model (Grid.place_set g row col val)) i j <= 9) ->
      ~ givens_conflict (Grid.model (Grid.place_set g row col val)) ->
      sudoku_solution (Grid.model g'))
  /\ (forall i j, (i < 9)%nat -> (j < 9)%nat -> cell (Grid.model g') i j <> 0)
  /\ (forall i j, (i < 9)%nat -> (j < 9)%nat -> Cube.value (Grid.cube g i j) <> 0 ->
        cell (Grid.model g') i j = Cube.value (Grid.cube g i j))
  /\ (val <> 0 -> cell (Grid.model g') row col = val)
  /\ Cube.value (Grid.cube g' row col) = val
  /\ (forall i j, (i, j) <> (row, col) -> Grid.cube g' i j = Grid.cube g i j).
Proof.
  intros Hw Hsel Hr Hc Hp.
  destruct (place_committed g row col val Hsel fuel g' Hp) as (Hz & _ & Hs).
  pose proof (place_g1_shape g row col val Hw) as Hshape.
  pose proof (place_g1_cell g row col val Hw) as Hcell.
  pose proof (place_g1_cube_sel g row col val Hw Hr Hc) as Hcs.
  pose proof (place_g1_cube_other g row col val) as Hco.
  pose proof (solve_returns_post _ _ _ _ Hshape Hs) as (Hg' & _ & Hfill).
  pose proof Hfill as (_ & Hk & Hf).
  assert (forall i j, Grid.cube g' i j
            = Grid.cube (Grid.place_set g row col val) i j) as Hcube.
  { intros i j. rewrite Hg'. apply cube_with_model. }
  split_and!.
  - done.
  - done.
  - intros i j Hi Hj H0 Hne. apply Hf; [done..|].
    rewrite Hcell by done. by destruct (decide ((i, j) = (row, col))).
  - intros Hrange Hcons. by apply (filling_consistent _ _ Hrange Hcons).
  - intros i j Hi Hj.
    destruct (decide (cell (Grid.model (Grid.place_set g row col val)) i j = 0))
      as [H0|Hn].
    + destruct (Hf i j Hi Hj H0) as [? _]. lia.
    + by rewrite Hk.
  - intros i j Hi Hj Hne. rewrite Hk; [|done..|];
      rewrite Hcell by done; destruct (decide ((i, j) = (row, col))) as [[= -> ->]|];
      done.
  - intros Hv. rewrite Hk; [|done..|]; rewrite Hcell by done;
      destruct (decide ((row, col) = (row, col))); done.
  - by rewrite Hcube, Hcs.
  - intros i j Hne. rewrite Hcube. by apply Hco.
Qed.

Lemma place_committed_solution_in_model_witness :
  exists g', Grid.place 82 (game two_holes 2 3 3) 3 = Return (Some true, g')
             /\ filling (Grid.model (Grid.place_set (game two_holes 2 3 3) 2 3 3))
                  (Grid.model g')
             /\ (forall i j, (i < 9)%nat -> (j < 9)%nat -> cell (Grid.model g') i j <> 0)
             /\ Cube.value (Grid.cube g' 2 3) = 3.
Proof.
  eexists. split; [vm_compute; reflexivity|].
  edestruct (place_committed_solution_in_model 82 (game two_holes 2 3 3) 3 2 3)
    as (_ & Hfill & _ & _ & Hfull & _ & _ & Hv & _);
    [reflexivity|reflexivity|lia|lia|vm_compute; reflexivity|].
  split_and!; [exact Hfill|exact Hfull|exact Hv].
Defined.

(** C5 fails as stated: after a committed move on a board with two empty
    cells, the other one is still empty on the board, though the model
    holds its digit. *)
Lemma place_committed_board_not_solved :
  exists g', Grid.place 82 (game two_holes 2 3 3) 3 = Return (Some true, g')
             /\ Cube.value (Grid.cube (game two_holes 2 3 3) 4 7) = 0
             /\ Cube.value (Grid.cube g' 4 7) = 0
             /\ cell (Grid.model g') 4 7 = 9
             /\ Grid.is_finished g' = false.
Proof.
  eexists. split; [vm_compute; reflexivity|]. vm_compute. by split_and!.
Qed.

(** The [True] branch of [place] returns without calling [set_temp]:
    whenever [place] answers [True] the selected cube holds the digit
    placed and the temp mark it had before the call. *)
Lemma place_committed_keeps_temp fuel g val row col g' :
  Grid.wf g = true -> Grid.selected g = Some (row, col) ->
  (row < 9)%nat -> (col < 9)%nat ->
  Grid.place fuel g val = Return (Some true, g') ->
  Cube.temp (Grid.cube g' row col) = Cube.temp (Grid.cube g row col)
  /\ Cube.value (Grid.cube g' row col) = val.
Proof.
  intros Hw Hsel Hr Hc Hp.
  destruct (place_committed g row col val Hsel fuel g' Hp) as (_ & _ & Hs).
  pose proof (place_g1_shape g row col val Hw) as Hshape.
  pose proof (place_g1_cube_sel g row col val Hw Hr Hc) as Hcs.
  apply solve_returns_post in Hs as (Hg' & _ & _); [|done].
  rewrite Hg', cube_with_model, Hcs. done.
Qed.

(** C8: the code misses what the claim says. The player sketched 3 at the
    empty cell (2,3) of [two_holes] and pressed RETURN: [place] answers
    [True] and the temp mark of the cell still reads 3, not 0.  The [else]
    branch of the same method does clear the mark: a rejected 4 at the
    same cell leaves temp 0.  The stale mark is read again by the RETURN
    branch of [run_game]: a second RETURN on the committed cell shows
    "Wrong" and costs a strike. *)
Theorem place_committed_temp_not_cleared :
  exists g',
    Grid.place 82 (game two_holes 2 3 3) 3 = Return (Some true, g')
    /\ Cube.value (Grid.cube g' 2 3) = 3
    /\ Cube.temp (Grid.cube g' 2 3) = 3
    /\ (exists g0,
          Grid.place 82 (game two_holes 2 3 4) 4 = Return (Some false, g0)
          /\ Cube.temp (Grid.cube g0 2 3) = 0)
    /\ on_return 82 g' 0 = Return (g', 1, [Wrong]).
Proof.
  eexists. split; [vm_compute; reflexivity|].
  split_and!; [reflexivity|reflexivity| |vm_compute; reflexivity].
  eexists. split; [vm_compute; reflexivity|reflexivity].
Qed.

(** * Beyond the claims *)

(** ** The scan order of [find_empty] *)

Lemma find_empty_cols_first bo i a n r c j :
  find_empty_cols bo i (seq a n) = Some (r, c) ->
  (a <= j < c)%nat -> cell bo i j <> 0.
Proof.
  revert a. induction n as [|n IH]; intros a; simpl; [done|].
  destruct (cell bo i a =? 0) eqn:E.
  - intros [= <- <-]. lia.
  - intros H Hj. destruct (decide (j = a)) as [->|Hne]; [by apply Z.eqb_neq|].
    apply (IH (S a)); [done|lia].
Qed.

Lemma find_empty_rows_first bo a n js r c i j :
  find_empty_rows bo (seq a n) js = Some (r, c) ->
  (a <= i < r)%nat -> In j js -> cell bo i j <> 0.
Proof.
  revert a. induction n as [|n IH]; intros a; simpl; [done|].
  destruct (find_empty_cols bo a js) as [p|] eqn:E.
  - intros [= ->]. apply find_empty_cols_Some in E as (-> & _ & _). lia.
  - intros H Hi Hj. destruct (decide (i = a)) as [->|Hne].
    + by eapply find_empty_cols_None.
    + apply (IH (S a)); [done|lia|done].
Qed.

Lemma find_empty_rows_row bo rs js r c :
  find_empty_rows bo rs js = Some (r, c) -> find_empty_cols bo r js = Some (r, c).
Proof.
  induction rs as [|i rs IH]; simpl; [done|].
  destruct (find_empty_cols bo i js) as [p|] eqn:E; [|done].
  intros [= ->]. pose proof E as E'.
  apply find_empty_cols_Some in E' as (-> & _ & _). done.
Qed.

Lemma find_empty_before bo r c i j :
  grid9 bo = true -> find_empty bo = Some (r, c) ->
  (i < 9)%nat -> (j < 9)%nat -> scanned_before (i, j) (r, c) -> cell bo i j <> 0.
Proof.
  intros Hg Hf Hi Hj [Hlt|[Heq Hlt]]; simpl in *.
  - unfold find_empty in Hf. rewrite (grid9_length _ Hg), (grid9_row0 _ Hg) in Hf.
    apply (find_empty_rows_first bo 0 9 (seq 0 9) r c); [done|lia|].
    apply in_seq. lia.
  - subst i. unfold find_empty in Hf.
    rewrite (grid9_length _ Hg), (grid9_row0 _ Hg) in Hf.
    apply find_empty_rows_row in Hf.
    apply (find_empty_cols_first bo r 0 9 r c); [done|lia].
Qed.

(** X1. [find_empty] returns the first empty cell of the row-major scan:
    it answers [(r, c)] exactly when that cell is empty and no cell
    scanned before it is. *)
Theorem find_empty_first bo r c :
  grid9 bo = true ->
  find_empty bo = Some (r, c)
  <-> (r < 9)%nat /\ (c < 9)%nat /\ cell bo r c = 0
      /\ forall i j, (i < 9)%nat -> (j < 9)%nat ->
                     scanned_before (i, j) (r, c) -> cell bo i j <> 0.
Proof.
  intros Hg. split.
  - intros Hf. destruct (find_empty_Some bo r c Hg Hf) as (Hr & Hc & H0).
    split_and!; [done..|]. intros i j. by apply find_empty_before.
  - intros (Hr & Hc & H0 & Hbefore).
    destruct (find_empty bo) as [[r' c']|] eqn:Hf.
    + destruct (find_empty_Some bo r' c' Hg Hf) as (Hr' & Hc' & H0').
      pose proof (fun i j => find_empty_before bo r' c' i j Hg Hf) as Hfirst.
      destruct (decide (r' = r)) as [->|Hnr].
      * destruct (decide (c' = c)) as [->|Hnc]; [done|].
        destruct (decide (c' < c)%nat).
        -- destruct (Hbefore r c' Hr Hc'); [right; simpl; lia|done].
        -- destruct (Hfirst r c Hr Hc); [right; simpl; lia|done].
      * destruct (decide (r' < r)%nat).
        -- destruct (Hbefore r' c' Hr' Hc'); [left; simpl; lia|done].
        -- destruct (Hfirst r c Hr Hc); [left; simpl; lia|done].
    + by destruct (find_empty_None bo r c Hg Hf Hr Hc).
Qed.

Lemma find_empty_first_witness :
  find_empty two_holes = Some (2%nat, 3%nat)
  <-> (2 < 9)%nat /\ (3 < 9)%nat /\ cell two_holes 2 3 = 0
      /\ forall i j, (i < 9)%nat -> (j < 9)%nat ->
                     scanned_before (i, j) (2%nat, 3%nat) -> cell two_holes i j <> 0.
Proof. apply (find_empty_first two_holes 2 3). reflexivity. Defined.

(** ** The search on consistent givens *)

Lemma givens_check_sound m :
  grid9 m = true -> givens_check m = true ->
  (forall i j, (i < 9)%nat -> (j < 9)%nat -> 0 <= cell m i j <= 9)
  /\ ~ givens_conflict m.
Proof.
  intros Hg. unfold givens_check. rewrite all_cells_true. intros H. split.
  - intros i j Hi Hj. specialize (H i j Hi Hj).
    apply andb_prop in H as [[H1 H2]%andb_prop _]. lia.
  - intros (i & j & Hi & Hj & Hne & Hc). specialize (H i j Hi Hj).
    apply andb_prop in H as [_ [H|H]%orb_prop]; [lia|].
    by apply (valid_true_no_clash m _ i j Hg Hi Hj) in H.
Qed.

(** X2. When the givens are digits and do not conflict, the search decides
    the puzzle: it answers [True] with a grid that obeys the rules of
    Sudoku and keeps the givens, or [False] when no such grid exists. *)
Theorem solve_consistent_givens g fuel :
  grid9 (Grid.model g) = true ->
  (forall i j, (i < 9)%nat -> (j < 9)%nat -> 0 <= cell (Grid.model g) i j <= 9) ->
  ~ givens_conflict (Grid.model g) ->
  (count_empty (Grid.model g) < fuel)%nat ->
  exists b g', Grid.solve fuel g = Some (b, g')
    /\ (b = true -> sudoku_solution (Grid.model g')
                    /\ keeps_givens (Grid.model g) (Grid.model g'))
    /\ (b = false <->
        ~ exists s, sudoku_solution s /\ keeps_givens (Grid.model g) s).
Proof.
  intros Hg Hrange Hcons Hlt.
  destruct (solve_runs fuel g Hg Hlt) as (b & g' & Hs & Hb).
  exists b, g'. split; [done|].
  pose proof (solve_returns_post fuel g b g' Hg Hs) as (_ & _ & Hpost).
  split.
  - intros ->. split; [by apply (filling_consistent (Grid.model g))|].
    by destruct Hpost as (_ & ? & _).
  - split.
    + intros -> (s & Hsol & Hk).
      assert (false = true); [|done]. apply Hb. exists s. by apply solution_filling.
    + intros Hno. destruct b; [|done]. destruct Hno.
      exists (Grid.model g'). split; [by apply (filling_consistent (Grid.model g))|].
      by destruct Hpost as (_ & ? & _).
Qed.

Lemma solve_consistent_givens_witness :
  exists b g', Grid.solve 4 (Grid.init three_holes) = Some (b, g')
    /\ (b = true -> sudoku_solution (Grid.model g')
                    /\ keeps_givens three_holes (Grid.model g'))
    /\ (b = false <-> ~ exists s, sudoku_solution s /\ keeps_givens three_holes s).
Proof.
  destruct (givens_check_sound three_holes) as [Hrange Hcons];
    [reflexivity|vm_compute; reflexivity|].
  apply (solve_consistent_givens (Grid.init three_holes) 4);
    [reflexivity|exact Hrange|exact Hcons|vm_compute; lia].
Defined.

(** ** The array of cubes *)

Lemma wf_cubes_length g : Grid.wf g = true -> length (Grid.cubes g) = 9%nat.
Proof. unfold Grid.wf. rewrite !andb_true_iff, !Nat.eqb_eq. tauto. Qed.

Lemma wf_cubes_row g i (l : list Cube.t) :
  Grid.wf g = true -> Grid.cubes g !! i = Some l -> length l = 9%nat.
Proof.
  unfold Grid.wf. rewrite !andb_true_iff, forallb_forall. intros [_ Hr] Hl.
  apply Nat.eqb_eq, Hr, list_elem_of_In. by eapply list_elem_of_lookup_2.
Qed.

Lemma wf_intro g :
  Grid.rows g = 9%nat -> Grid.cols g = 9%nat -> length (Grid.cubes g) = 9%nat ->
  (forall i (l : list Cube.t), Grid.cubes g !! i = Some l -> length l = 9%nat) ->
  Grid.wf g = true.
Proof.
  intros Hrows Hcols Hlen Hrow. unfold Grid.wf.
  rewrite !andb_true_iff, !Nat.eqb_eq, forallb_forall. split_and!; [done..|].
  intros l [i Hi]%list_elem_of_In%list_elem_of_lookup_1. apply Nat.eqb_eq. by eapply Hrow.
Qed.

Lemma cube_lookup g i j :
  Grid.wf g = true -> (i < 9)%nat -> (j < 9)%nat ->
  exists l, Grid.cubes g !! i = Some l /\ l !! j = Some (Grid.cube g i j).
Proof.
  intros Hw Hi Hj. destruct (wf_lookup g i j Hw Hi Hj) as (l & Hl & Hlt).
  destruct (lookup_lt_is_Some_2 l j Hlt) as [x Hx].
  exists l. split; [done|]. unfold Grid.cube. by rewrite Hl, Hx.
Qed.

(** Two well-formed grids with the same cubes cell by cell have the same
    array of cubes. *)
Lemma cubes_ext g g' :
  Grid.wf g = true -> Grid.wf g' = true ->
  (forall i j, (i < 9)%nat -> (j < 9)%nat -> Grid.cube g i j = Grid.cube g' i j) ->
  Grid.cubes g = Grid.cubes g'.
Proof.
  intros Hw Hw' H.
  apply (list_eq_same_length _ _ 9%nat); [by apply wf_cubes_length..|].
  intros i l l' Hi Hl Hl'.
  apply (list_eq_same_length _ _ 9%nat);
    [exact (wf_cubes_row g' i l' Hw' Hl') | exact (wf_cubes_row g i l Hw Hl) |].
  intros j x y Hj Hx Hy. specialize (H i j Hi Hj). unfold Grid.cube in H.
  rewrite Hl, Hl', Hx, Hy in H. done.
Qed.

Lemma grid_ext g g' :
  Grid.wf g = true -> Grid.wf g' = true ->
  (forall i j, (i < 9)%nat -> (j < 9)%nat -> Grid.cube g i j = Grid.cube g' i j) ->
  Grid.model g = Grid.model g' -> Grid.selected g = Grid.selected g' -> g = g'.
Proof.
  intros Hw Hw' Hc Hm Hs. pose proof (cubes_ext g g' Hw Hw' Hc) as Hcs.
  pose proof (wf_rows g Hw). pose proof (wf_rows g' Hw').
  pose proof (wf_cols g Hw). pose proof (wf_cols g' Hw').
  destruct g, g'; simpl in *. congruence.
Qed.

(** ** The constructor *)

(** X3. Building the grid from a 9x9 board and deriving the model gives
    the board back: [Grid.__init__] yields a well-formed grid whose model
    is the board, whose cubes hold the board's digits with no temp mark,
    and with nothing selected. *)
Theorem init_model bo :
  grid9 bo = true ->
  Grid.wf (Grid.init bo) = true
  /\ Grid.model (Grid.init bo) = bo
  /\ Grid.selected (Grid.init bo) = None
  /\ forall i j, (i < 9)%nat -> (j < 9)%nat ->
       Grid.cube (Grid.init bo) i j = Cube.init (cell bo i j) i j.
Proof.
  intros Hg.
  assert (Grid.wf (Grid.init bo) = true) as Hw by reflexivity.
  assert (forall i j, (i < 9)%nat -> (j < 9)%nat ->
            Grid.cube (Grid.init bo) i j = Cube.init (cell bo i j) i j) as Hc.
  { intros i j Hi Hj. unfold Grid.init. rewrite cube_update_model.
    unfold Grid.cube. cbn [Grid.cubes].
    rewrite list_lookup_fmap, lookup_seq_lt by done.
    cbn [fmap option_fmap option_map].
    rewrite list_lookup_fmap, lookup_seq_lt by done. done. }
  split_and!; [done| |done|done].
  apply matrix_ext; [by apply grid9_update_model|done|].
  intros i j Hi Hj. unfold Grid.init at 1.
  rewrite cell_update_model by done.
  change (Cube.value (Grid.cube (Grid.init bo) i j) = cell bo i j).
  by rewrite Hc.
Qed.

Lemma init_model_witness :
  Grid.wf (Grid.init dead_end) = true
  /\ Grid.model (Grid.init dead_end) = dead_end
  /\ Grid.selected (Grid.init dead_end) = None
  /\ forall i j, (i < 9)%nat -> (j < 9)%nat ->
       Grid.cube (Grid.init dead_end) i j = Cube.init (cell dead_end i j) i j.
Proof. apply (init_model dead_end). reflexivity. Defined.

(** ** Selecting, sketching, clearing *)

Lemma select_cube g r c i j :
  Grid.wf g = true -> (i < 9)%nat -> (j < 9)%nat ->
  Grid.cube (Grid.select g r c) i j
  = Cube.set_selected (Grid.cube g i j) (bool_decide ((i, j) = (r, c))).
Proof.
  intros Hw Hi Hj. destruct (cube_lookup g i j Hw Hi Hj) as (l & Hl & Hx).
  unfold Grid.select. unfold Grid.cube at 1. cbn [Grid.cubes].
  destruct (decide (r = i)) as [->|Hr].
  - rewrite list_lookup_alter_eq, list_lookup_fmap, Hl.
    cbn [fmap option_fmap option_map].
    destruct (decide (c = j)) as [->|Hc].
    + rewrite list_lookup_alter_eq, list_lookup_fmap, Hx.
      cbn [fmap option_fmap option_map]. by rewrite bool_decide_eq_true_2.
    + rewrite list_lookup_alter_ne, list_lookup_fmap, Hx by done.
      cbn [fmap option_fmap option_map].
      rewrite bool_decide_eq_false_2; [done|congruence].
  - rewrite list_lookup_alter_ne, list_lookup_fmap, Hl by done.
    cbn [fmap option_fmap option_map]. rewrite list_lookup_fmap, Hx.
    cbn [fmap option_fmap option_map].
    rewrite bool_decide_eq_false_2; [done|congruence].
Qed.

Lemma select_wf g r c : Grid.wf g = true -> Grid.wf (Grid.select g r c) = true.
Proof.
  intros Hw. apply wf_intro; unfold Grid.select; cbn [Grid.rows Grid.cols Grid.cubes].
  - by apply wf_rows.
  - by apply wf_cols.
  - rewrite length_alter, length_fmap. by apply wf_cubes_length.
  - intros i l. destruct (decide (r = i)) as [->|Hr].
    + rewrite list_lookup_alter_eq, list_lookup_fmap.
      destruct (Grid.cubes g !! i) as [l'|] eqn:Hl'; [|done].
      intros [= <-]. rewrite length_alter, length_fmap. by eapply wf_cubes_row.
    + rewrite list_lookup_alter_ne, list_lookup_fmap by done.
      destruct (Grid.cubes g !! i) as [l'|] eqn:Hl'; [|done].
      intros [= <-]. rewrite length_fmap. by eapply wf_cubes_row.
Qed.

(** X4. After [select(row, col)] on a cell of the grid, that cube and no
    other is marked selected, whatever was marked before; the selection
    is recorded, and no value, temp mark or model cell has changed. *)
Theorem select_exactly_one g row col :
  Grid.wf g = true -> (row < 9)%nat -> (col < 9)%nat ->
  Grid.wf (Grid.select g row col) = true
  /\ Grid.selected (Grid.select g row col) = Some (row, col)
  /\ Grid.model (Grid.select g row col) = Grid.model g
  /\ forall i j, (i < 9)%nat -> (j < 9)%nat ->
       (Cube.selected (Grid.cube (Grid.select g row col) i j) = true
        <-> (i, j) = (row, col))
       /\ Cube.value (Grid.cube (Grid.select g row col) i j)
          = Cube.value (Grid.cube g i j)
       /\ Cube.temp (Grid.cube (Grid.select g row col) i j)
          = Cube.temp (Grid.cube g i j).
Proof.
  intros Hw Hr Hc. split_and!; [by apply select_wf|done|done|].
  intros i j Hi Hj. rewrite select_cube by done. split_and!; [|done..].
  cbn [Cube.set_selected Cube.selected]. apply bool_decide_eq_true.
Qed.

Lemma select_exactly_one_witness :
  Grid.selected (Grid.select (game two_holes 2 3 3) 4 7) = Some (4%nat, 7%nat)
  /\ forall i j, (i < 9)%nat -> (j < 9)%nat ->
       Cube.selected (Grid.cube (Grid.select (game two_holes 2 3 3) 4 7) i j) = true
       <-> (i, j) = (4%nat, 7%nat).
Proof.
  destruct (select_exactly_one (game two_holes 2 3 3) 4 7) as (_ & Hs & _ & H);
    [reflexivity|lia|lia|].
  split; [exact Hs|]. intros i j Hi Hj. apply (H i j Hi Hj).
Defined.

(** X5. [sketch] writes the temp mark of the selected cube whatever the
    cube holds, and nothing else; [clear] right after erases the mark when
    the cell is empty and does nothing at all when it is filled, so a mark
    sketched on a filled cell stays. *)
Theorem sketch_then_clear g row col val :
  Grid.wf g = true -> Grid.selected g = Some (row, col) ->
  (row < 9)%nat -> (col < 9)%nat ->
  exists g1 g2,
    Grid.sketch g val = Return g1 /\ Grid.clear g1 = Return g2
    /\ Grid.cube g1 row col = Cube.set_temp (Grid.cube g row col) val
    /\ (forall i j, (i, j) <> (row, col) -> Grid.cube g1 i j = Grid.cube g i j)
    /\ Grid.model g1 = Grid.model g
    /\ (Cube.value (Grid.cube g row col) = 0 ->
        Grid.cube g2 row col = Cube.set_temp (Grid.cube g row col) 0
        /\ forall i j, (i, j) <> (row, col) -> Grid.cube g2 i j = Grid.cube g i j)
    /\ (Cube.value (Grid.cube g row col) <> 0 -> g2 = g1).
Proof.
  intros Hw Hsel Hr Hc.
  set (g1 := Grid.upd_cube g row col (fun c => Cube.set_temp c val)).
  assert (Grid.cube g1 row col = Cube.set_temp (Grid.cube g row col) val) as H1
    by (by apply cube_upd_cube_eq).
  assert (Grid.sketch g val = Return g1) as Hs
    by (unfold Grid.sketch; by rewrite Hsel).
  assert (Grid.clear g1
          = Return (if Cube.value (Grid.cube g row col) =? 0
                    then Grid.upd_cube g1 row col (fun c => Cube.set_temp c 0)
                    else g1)) as Hcl.
  { unfold Grid.clear. change (Grid.selected g1) with (Grid.selected g).
    rewrite Hsel, H1. cbn [Cube.set_temp Cube.value].
    by destruct (Cube.value (Grid.cube g row col) =? 0). }
  eexists g1, _. split; [exact Hs|]. split; [exact Hcl|].
  split_and!; [done| |done| |].
  - intros i j Hne. apply cube_upd_cube_ne. congruence.
  - intros Hz. apply Z.eqb_eq in Hz. rewrite Hz. split.
    + rewrite cube_upd_cube_eq by (done || by apply wf_upd_cube).
      by rewrite H1.
    + intros i j Hne. unfold g1. rewrite !cube_upd_cube_ne by congruence. done.
  - intros Hz. apply Z.eqb_neq in Hz. by rewrite Hz.
Qed.

Lemma sketch_then_clear_witness :
  exists g1 g2,
    Grid.sketch (game two_holes 0 0 0) 7 = Return g1 /\ Grid.clear g1 = Return g2
    /\ Cube.temp (Grid.cube g1 0 0) = 7 /\ g2 = g1.
Proof.
  destruct (sketch_then_clear (game two_holes 0 0 0) 0 0 7)
    as (g1 & g2 & Hs & Hc & H1 & _ & _ & _ & Hfilled);
    [reflexivity|reflexivity|lia|lia|].
  exists g1, g2. split_and!; [done|done|by rewrite H1|].
  apply Hfilled. by vm_compute.
Defined.

(** ** [is_finished] *)

Lemma is_finished_true g :
  Grid.wf g = true ->
  Grid.is_finished g = true
  <-> forall i j, (i < 9)%nat -> (j < 9)%nat -> Cube.value (Grid.cube g i j) <> 0.
Proof.
  intros Hw. unfold Grid.is_finished. rewrite (wf_rows g Hw), (wf_cols g Hw).
  change (all_cells (fun i j => negb (Cube.value (Grid.cube g i j) =? 0)) = true
          <-> forall i j, (i < 9)%nat -> (j < 9)%nat -> Cube.value (Grid.cube g i j) <> 0).
  rewrite all_cells_true. split; intros H i j Hi Hj; specialize (H i j Hi Hj).
  - by apply negb_true_iff, Z.eqb_neq in H.
  - by apply negb_true_iff, Z.eqb_neq.
Qed.

(** X6. [is_finished], which reads the cubes, and [find_empty], which
    reads the model, agree once the model is derived from the cubes: the
    board is finished exactly when [find_empty] finds no cell. *)
Theorem is_finished_iff_no_empty g :
  Grid.wf g = true ->
  Grid.is_finished g = true
  <-> find_empty (Grid.model (Grid.update_model g)) = None.
Proof.
  intros Hw. rewrite is_finished_true by done.
  pose proof (grid9_update_model g Hw) as Hg. split.
  - intros H. apply find_empty_full; [done|]. intros i j Hi Hj.
    rewrite cell_update_model by done. by apply H.
  - intros H i j Hi Hj. rewrite <- cell_update_model by done.
    by apply find_empty_None.
Qed.

Lemma is_finished_iff_no_empty_witness :
  Grid.is_finished (Grid.init solved_board) = true
  <-> find_empty (Grid.model (Grid.update_model (Grid.init solved_board))) = None.
Proof. apply (is_finished_iff_no_empty (Grid.init solved_board)). reflexivity. Defined.

(** ** The last cell of a puzzle *)

(** Every row of a solution holds every digit. *)
Lemma solution_row_has_digit s row d :
  sudoku_solution s -> (row < 9)%nat -> 1 <= d <= 9 ->
  exists j, (j < 9)%nat /\ cell s row j = d.
Proof.
  intros (Hg & Hd & Hc) Hr Hrange.
  set (l := (fun j => cell s row j) <$> seq 0 9).
  destruct (decide (d ∈ l)) as [Hin|Hnin].
  { apply list_elem_of_fmap in Hin as (j & -> & Hj%elem_of_seq). exists j. split; [lia|done]. }
  exfalso.
  assert (NoDup l) as Hnd.
  { apply NoDup_fmap_2_strong; [|apply NoDup_seq].
    intros j j' Hj%elem_of_seq Hj'%elem_of_seq Heq.
    destruct (decide (j = j')) as [|Hne]; [done|]. exfalso.
    apply (Hc row j'); [lia..|]. exists row, j.
    split_and!; [lia..|congruence|by left|done]. }
  assert (forall x, x ∈ l -> x ∈ filter (fun x => x <> d) (seqZ 1 9)) as Hsub.
  { intros x Hx. apply list_elem_of_filter. split; [by intros ->|].
    apply list_elem_of_fmap in Hx as (j & -> & Hj%elem_of_seq).
    apply elem_of_seqZ. specialize (Hd row j). lia. }
  pose proof (submseteq_length _ _ (NoDup_submseteq _ _ Hnd Hsub)) as Hlen.
  assert (length (filter (fun x => x <> d) (seqZ 1 9)) = 8%nat) as Hl8.
  { assert (d = 1 \/ d = 2 \/ d = 3 \/ d = 4 \/ d = 5 \/ d = 6 \/ d = 7 \/ d = 8 \/ d = 9)
      as Hcases by lia.
    destruct Hcases as [->|[->|[->|[->|[->|[->|[->|[->| ->]]]]]]]]; reflexivity. }
  rewrite Hl8 in Hlen. unfold l in Hlen. rewrite length_fmap, length_seq in Hlen. lia.
Qed.

(** X7. On a board that is a Sudoku solution but for the selected cell,
    which is empty, [place] commits the missing digit, and the board is
    then finished; any other digit 1..9 is rejected and the cell reads
    empty again. *)
Theorem place_last_cell g s row col d fuel :
  Grid.wf g = true -> Grid.selected g = Some (row, col) ->
  (row < 9)%nat -> (col < 9)%nat ->
  sudoku_solution s ->
  (forall i j, (i < 9)%nat -> (j < 9)%nat -> (i, j) <> (row, col) ->
     Cube.value (Grid.cube g i j) = cell s i j) ->
  Cube.value (Grid.cube g row col) = 0 ->
  1 <= d <= 9 -> (0 < fuel)%nat ->
  exists g',
    Grid.place fuel g d = Return (Some (bool_decide (d = cell s row col)), g')
    /\ (d = cell s row col -> Grid.is_finished g' = true)
    /\ (d <> cell s row col -> Cube.value (Grid.cube g' row col) = 0).
Proof.
  intros Hw Hsel Hr Hc Hsol Hrest Hz Hd Hfuel.
  pose proof (place_g1_cell g row col d Hw) as Hcell.
  pose proof (place_g1_shape g row col d Hw) as Hshape.
  unfold Grid.place. rewrite Hsel. apply Z.eqb_eq in Hz. rewrite Hz.
  cbv zeta. destruct (decide (d = cell s row col)) as [Heq|Hne].
  - rewrite bool_decide_eq_true_2 by done.
    assert (Grid.model (Grid.place_set g row col d) = s) as Hm.
    { apply matrix_ext; [done|by destruct Hsol|]. intros i j Hi Hj.
      rewrite Hcell by done. destruct (decide ((i, j) = (row, col))) as [[= -> ->]|Hp];
        [done|by apply Hrest]. }
    assert (find_empty s = None) as Hfull.
    { destruct Hsol as (Hg & Hdig & _). apply find_empty_full; [done|].
      intros i j Hi Hj. specialize (Hdig i j Hi Hj). lia. }
    rewrite Hm. destruct fuel as [|fuel]; [lia|]. rewrite solve_unfold, Hm, Hfull.
    assert (valid s d (row, col) = true) as ->.
    { destruct Hsol as (Hg & _ & Hno). rewrite Heq.
      apply valid_true_no_clash; [done..|]. by apply Hno. }
    eexists. split; [done|]. split; [|done]. intros _.
    apply is_finished_true; [apply place_g1_wf; done|].
    intros i j Hi Hj. unfold Grid.place_set at 1. rewrite cube_update_model.
    rewrite <- (cell_update_model (Grid.upd_cube g row col (fun c => Cube.set c d)))
      by (done || by apply wf_upd_cube).
    fold (Grid.place_set g row col d). rewrite Hm.
    destruct Hsol as (_ & Hdig & _). specialize (Hdig i j Hi Hj). lia.
  - rewrite bool_decide_eq_false_2 by done.
    assert (valid (Grid.model (Grid.place_set g row col d)) d (row, col) = false) as ->.
    { apply valid_false_clash; [done..|].
      destruct (solution_row_has_digit s row d Hsol Hr Hd) as (j & Hj & Hdj).
      exists row, j. split_and!; [done..| |by left|].
      - intros [= ->]. congruence.
      - rewrite Hcell by done.
        destruct (decide ((row, j) = (row, col))) as [[= ->]|Hp]; [congruence|].
        rewrite Hrest; [done..|]. done. }
    eexists. split; [done|]. split; [done|]. intros _.
    rewrite (place_undo_cube_sel g row col d Hw Hr Hc). done.
Qed.

Lemma place_last_cell_witness :
  exists g',
    Grid.place 1 (game one_hole 0 0 3) 3 = Return (Some false, g')
    /\ Cube.value (Grid.cube g' 0 0) = 0.
Proof.
  destruct (place_last_cell (game one_hole 0 0 3) solved_board 0 0 3 1)
    as (g' & Hp & _ & Hne).
  - reflexivity.
  - reflexivity.
  - lia.
  - lia.
  - apply solution_check_sound. vm_compute. reflexivity.
  - intros i j Hi Hj Hne.
    do 9 (destruct i as [|i];
          [do 9 (destruct j as [|j]; [first [reflexivity|by destruct Hne]|]); lia|]).
    lia.
  - reflexivity.
  - lia.
  - lia.
  - exists g'. split; [exact Hp|]. apply Hne. by vm_compute.
Defined.

(** ** The animated search *)

Section Paint.
Variable g : Grid.t.
Hypothesis g_wf : Grid.wf g = true.
Implicit Types (m : matrix) (i j r c : nat) (v : Z).

Lemma paint_wf m : Grid.wf (paint g m) = true.
Proof.
  apply wf_intro; unfold paint; cbn [Grid.rows Grid.cols Grid.cubes].
  - by apply wf_rows.
  - by apply wf_cols.
  - rewrite length_imap. by apply wf_cubes_length.
  - intros i l. rewrite list_lookup_imap.
    destruct (Grid.cubes g !! i) as [l'|] eqn:Hl'; [|done].
    intros [= <-]. rewrite length_imap. by eapply wf_cubes_row.
Qed.

Lemma paint_cube m i j :
  (i < 9)%nat -> (j < 9)%nat ->
  Grid.cube (paint g m) i j = Cube.set (Grid.cube g i j) (cell m i j).
Proof.
  intros Hi Hj. destruct (cube_lookup g i j g_wf Hi Hj) as (l & Hl & Hx).
  unfold paint. unfold Grid.cube at 1. cbn [Grid.cubes].
  rewrite list_lookup_imap, Hl. cbn [fmap option_fmap option_map].
  rewrite list_lookup_imap, Hx. done.
Qed.

Lemma update_model_paint m : grid9 m = true -> Grid.update_model (paint g m) = paint g m.
Proof.
  intros Hm. apply grid_ext.
  { rewrite wf_update_model. apply paint_wf. }
  { apply paint_wf. }
  { intros i j _ _. apply cube_update_model. }
  2: done.
  apply matrix_ext; [apply grid9_update_model, paint_wf|done|].
  intros i j Hi Hj. rewrite cell_update_model by (done || apply paint_wf).
  by rewrite paint_cube.
Qed.

Lemma gui_write_paint m r c v :
  grid9 m = true -> (r < 9)%nat -> (c < 9)%nat ->
  Grid.gui_write (paint g m) r c v = paint g (set_cell m r c v).
Proof.
  intros Hm Hr Hc.
  assert (Grid.wf (Grid.upd_cube (Grid.with_model (paint g m) (set_cell m r c v))
                     r c (fun x => Cube.set x v)) = true) as Hw1.
  { apply wf_upd_cube. rewrite wf_with_model. apply paint_wf. }
  assert (forall i j, (i < 9)%nat -> (j < 9)%nat ->
            Grid.cube (Grid.gui_write (paint g m) r c v) i j
            = Grid.cube (paint g (set_cell m r c v)) i j) as Hcube.
  { intros i j Hi Hj. unfold Grid.gui_write. rewrite cube_update_model.
    rewrite (paint_cube (set_cell m r c v)) by done.
    destruct (decide ((r, c) = (i, j))) as [[= <- <-]|Hne].
    - rewrite cube_upd_cube_eq; [|rewrite wf_with_model; apply paint_wf|done..].
      rewrite cube_with_model, paint_cube, cell_set_cell_eq by done. done.
    - rewrite cube_upd_cube_ne, cube_with_model, paint_cube by done.
      by rewrite cell_set_cell_ne. }
  apply grid_ext.
  { unfold Grid.gui_write. by rewrite wf_update_model. }
  { apply paint_wf. }
  { done. }
  2: done.
  apply matrix_ext; [by apply grid9_update_model|by apply grid9_set_cell|].
  intros i j Hi Hj. unfold Grid.gui_write at 1. rewrite cell_update_model by done.
  change (Cube.value (Grid.cube (Grid.gui_write (paint g m) r c v) i j)
          = cell (set_cell m r c v) i j).
  rewrite Hcube, paint_cube by done. done.
Qed.

Lemma paint_update_model :
  paint g (Grid.model (Grid.update_model g)) = Grid.update_model g.
Proof.
  apply grid_ext.
  { apply paint_wf. }
  { by rewrite wf_update_model. }
  2, 3: done.
  intros i j Hi Hj. rewrite paint_cube, cell_update_model, cube_update_model by done.
  by destruct (Grid.cube g i j).
Qed.

(** The answer and the grid of [solve_gui], without the frames. *)
Local Abbreviation shown :=
  (fun r : bool * Grid.t * list frame => (r.1.1, r.1.2)).
(** The answer of [solve] and the board painted with its model. *)
Local Abbreviation painted :=
  (fun r : bool * Grid.t => (r.1, paint g (Grid.model r.2))).

Lemma solve_gui_loop_paint fuel r c ds m :
  (forall m, grid9 m = true ->
     shown <$> Grid.solve_gui fuel (paint g m)
     = painted <$> Grid.solve fuel (Grid.with_model g m)) ->
  (r < 9)%nat -> (c < 9)%nat -> grid9 m = true ->
  shown <$> Grid.solve_gui_loop (Grid.solve_gui fuel) r c ds (paint g m)
  = painted <$> Grid.solve_loop (Grid.solve fuel) r c ds (Grid.with_model g m).
Proof.
  intros IH Hr Hc. revert m. induction ds as [|d ds IHds]; intros m Hm; [done|].
  cbn [Grid.solve_gui_loop Grid.solve_loop].
  change (Grid.model (paint g m)) with m.
  change (Grid.model (Grid.with_model g m)) with m.
  destruct (valid m d (r, c)); [|by apply IHds].
  rewrite gui_write_paint, with_model_twice by done.
  pose proof (IH (set_cell m r c d) (grid9_set_cell m r c d Hm)) as Hrec.
  destruct (Grid.solve fuel (Grid.with_model g (set_cell m r c d)))
    as [[b g2]|] eqn:Hs.
  - destruct (Grid.solve_gui fuel (paint g (set_cell m r c d)))
      as [[[b' g2'] tr]|]; [|done].
    injection Hrec as -> ->.
    apply solve_returns_post in Hs as (Hg2 & Hshape & _);
      [|by apply grid9_set_cell].
    destruct b; [done|].
    rewrite gui_write_paint by done.
    replace (Grid.with_model g2 (set_cell (Grid.model g2) r c 0))
      with (Grid.with_model g (set_cell (Grid.model g2) r c 0))
      by (by rewrite Hg2).
    specialize (IHds (set_cell (Grid.model g2) r c 0)
                  (grid9_set_cell _ r c 0 Hshape)).
    destruct (Grid.solve_gui_loop (Grid.solve_gui fuel) r c ds
                (paint g (set_cell (Grid.model g2) r c 0))) as [[[b4 g4] tr4]|];
      destruct (Grid.solve_loop (Grid.solve fuel) r c ds
                  (Grid.with_model g (set_cell (Grid.model g2) r c 0)));
      done.
  - destruct (Grid.solve_gui fuel (paint g (set_cell m r c d)))
      as [[[b' g2'] tr]|]; done.
Qed.

Lemma solve_gui_paint fuel m :
  grid9 m = true ->
  shown <$> Grid.solve_gui fuel (paint g m)
  = painted <$> Grid.solve fuel (Grid.with_model g m).
Proof.
  revert m. induction fuel as [|fuel IH]; intros m Hm; [done|].
  rewrite solve_unfold. cbn [Grid.solve_gui]. rewrite update_model_paint by done.
  change (Grid.model (paint g m)) with m.
  change (Grid.model (Grid.with_model g m)) with m.
  destruct (find_empty m) as [[r c]|] eqn:Hf; [|done].
  apply find_empty_Some in Hf as (Hr & Hc & _); [|done].
  by apply solve_gui_loop_paint.
Qed.

End Paint.

(** X8. [solve_gui] is [solve] with the board kept in step: it gives the
    answer [solve] gives on the model derived from the cubes, and leaves
    the cubes showing, and the model holding, the model [solve] leaves;
    temp marks and the selection are untouched. *)
Theorem solve_gui_refines_solve g fuel :
  Grid.wf g = true ->
  (fun r : bool * Grid.t * list frame => (r.1.1, r.1.2)) <$> Grid.solve_gui fuel g
  = (fun r : bool * Grid.t => (r.1, paint g (Grid.model r.2)))
      <$> Grid.solve fuel (Grid.update_model g).
Proof.
  intros Hw. destruct fuel as [|fuel]; [done|].
  change (Grid.solve_gui (S fuel) g)
    with (Grid.solve_gui (S fuel) (Grid.update_model g)).
  rewrite <- (paint_update_model g Hw) at 1.
  rewrite (solve_gui_paint g Hw (S fuel)) by (by apply grid9_update_model).
  done.
Qed.

Lemma solve_gui_refines_solve_witness :
  (fun r : bool * Grid.t * list frame => (r.1.1, r.1.2))
    <$> Grid.solve_gui 3 (game two_holes 2 3 3)
  = (fun r : bool * Grid.t => (r.1, paint (game two_holes 2 3 3) (Grid.model r.2)))
      <$> Grid.solve 3 (Grid.update_model (game two_holes 2 3 3)).
Proof. apply (solve_gui_refines_solve (game two_holes 2 3 3) 3). reflexivity. Defined.

(** X9. With fuel above the number of empty cells [solve_gui] returns. On
    [True] the board is finished and every cube that held a digit is as it
    was; on [False] the grid is the one [update_model] gives, every cube
    as before the call. *)
Theorem solve_gui_outcome g fuel :
  Grid.wf g = true ->
  (count_empty (Grid.model (Grid.update_model g)) < fuel)%nat ->
  exists b g' tr,
    Grid.solve_gui fuel g = Some (b, g', tr)
    /\ (b = true ->
        Grid.is_finished g' = true
        /\ forall i j, (i < 9)%nat -> (j < 9)%nat ->
             Cube.value (Grid.cube g i j) <> 0 -> Grid.cube g' i j = Grid.cube g i j)
    /\ (b = false -> g' = Grid.update_model g).
Proof.
  intros Hw Hlt. pose proof (grid9_update_model g Hw) as Hg0.
  assert ((fun r : bool * Grid.t * list frame => (r.1.1, r.1.2))
            <$> Grid.solve_gui fuel g
          = (fun r : bool * Grid.t => (r.1, paint g (Grid.model r.2)))
              <$> Grid.solve fuel (Grid.update_model g)) as Href.
  { destruct fuel as [|fuel]; [done|].
    change (Grid.solve_gui (S fuel) g)
      with (Grid.solve_gui (S fuel) (Grid.update_model g)).
    rewrite <- (paint_update_model g Hw) at 1.
    by rewrite (solve_gui_paint g Hw (S fuel)). }
  destruct (solve_runs fuel _ Hg0 Hlt) as (b & g2 & Hs & _).
  rewrite Hs in Href.
  destruct (Grid.solve_gui fuel g) as [[[b' g'] tr]|]; [|done].
  injection Href as -> ->. exists b, (paint g (Grid.model g2)), tr.
  split; [done|].
  apply solve_returns_post in Hs as (_ & Hshape & Hpost); [|done]. split.
  - intros ->. destruct Hpost as (_ & Hk & Hf). split.
    + apply is_finished_true; [by apply paint_wf|]. intros i j Hi Hj.
      rewrite paint_cube by done. cbn [Cube.set Cube.value].
      destruct (decide (cell (Grid.model (Grid.update_model g)) i j = 0)) as [Hz|Hnz].
      * destruct (Hf i j Hi Hj Hz) as [? _]. lia.
      * by rewrite Hk.
    + intros i j Hi Hj Hne. rewrite paint_cube by done.
      assert (cell (Grid.model g2) i j = Cube.value (Grid.cube g i j)) as ->.
      { rewrite Hk by (done || by rewrite cell_update_model).
        by apply cell_update_model. }
      by destruct (Grid.cube g i j).
  - intros ->. rewrite Hpost. by apply paint_update_model.
Qed.

Lemma solve_gui_outcome_witness :
  exists b g' tr,
    Grid.solve_gui 4 (game three_holes 0 0 3) = Some (b, g', tr)
    /\ (b = true ->
        Grid.is_finished g' = true
        /\ forall i j, (i < 9)%nat -> (j < 9)%nat ->
             Cube.value (Grid.cube (game three_holes 0 0 3) i j) <> 0 ->
             Grid.cube g' i j = Grid.cube (game three_holes 0 0 3) i j)
    /\ (b = false -> g' = Grid.update_model (game three_holes 0 0 3)).
Proof.
  apply (solve_gui_outcome (game three_holes 0 0 3) 4); [reflexivity|vm_compute; lia].
Defined.

(** ** The frames of the animated search *)



Section Frames.
Variable g : Grid.t.
Hypothesis g_wf : Grid.wf g = true.




End Frames.



(** ** The RETURN key *)

Lemma place_on_filled fuel g val row col :
  Grid.selected g = Some (row, col) ->
  Cube.value (Grid.cube g row col) <> 0 ->
  Grid.place fuel g val = Return (None, g).
Proof.
  intros Hsel Hne. unfold Grid.place. rewrite Hsel.
  apply Z.eqb_neq in Hne. by rewrite Hne.
Qed.

Lemma place_on_empty fuel g val row col r g' :
  Grid.selected g = Some (row, col) ->
  Cube.value (Grid.cube g row col) = 0 ->
  Grid.place fuel g val = Return (r, g') -> exists b, r = Some b.
Proof.
  intros Hsel Hz. unfold Grid.place. rewrite Hsel.
  apply Z.eqb_eq in Hz. rewrite Hz. cbv zeta.
  destruct (valid _ val (row, col)); [|intros [= <- _]; eauto].
  destruct (Grid.solve fuel _) as [[[] g2]|]; [| |done]; intros [= <- _]; eauto.
Qed.

Lemma on_return_filled_cell_aux fuel g strikes row col :
  Grid.selected g = Some (row, col) ->
  Cube.value (Grid.cube g row col) <> 0 ->
  Cube.temp (Grid.cube g row col) <> 0 ->
  on_return fuel g strikes
  = Return (g, strikes + 1,
            Wrong :: (if Grid.is_finished g then [GameOver] else [])).
Proof.
  intros Hsel Hv Ht. unfold on_return. rewrite Hsel.
  apply Z.eqb_neq in Ht. rewrite Ht. cbn [negb].
  by rewrite (place_on_filled fuel g _ row col Hsel Hv).
Qed.

(** X11. RETURN on a filled cell that carries a temp mark places nothing
    and still counts as a wrong move: the grid is untouched, the "Wrong"
    box is shown and a strike is added. *)
Theorem on_return_filled_cell fuel g strikes row col :
  Grid.selected g = Some (row, col) ->
  Cube.value (Grid.cube g row col) <> 0 ->
  Cube.temp (Grid.cube g row col) <> 0 ->
  on_return fuel g strikes
  = Return (g, strikes + 1,
            Wrong :: (if Grid.is_finished g then [GameOver] else [])).
Proof.
  intros Hsel Hv Ht. unfold on_return. rewrite Hsel.
  apply Z.eqb_neq in Ht. rewrite Ht. cbn [negb].
  unfold Grid.place. rewrite Hsel. apply Z.eqb_neq in Hv. by rewrite Hv.
Qed.

Lemma on_return_filled_cell_witness :
  on_return 82 (game two_holes 0 0 7) 0
  = Return (game two_holes 0 0 7, 1, [Wrong]).
Proof.
  apply (on_return_filled_cell 82 (game two_holes 0 0 7) 0 0 0);
    [reflexivity|by vm_compute|by vm_compute].
Defined.

(** X12. RETURN pressed a second time. After a move on an empty cell that
    was accepted ("Success", no strike), the cell keeps its temp mark and
    is now filled, so a second RETURN is a wrong move and adds a strike;
    after a move that was refused ("Wrong", one strike), the temp mark is
    gone and a second RETURN does nothing. *)
Theorem on_return_twice fuel g strikes row col g1 strikes1 msgs1 :
  Grid.wf g = true -> Grid.selected g = Some (row, col) ->
  (row < 9)%nat -> (col < 9)%nat ->
  Cube.value (Grid.cube g row col) = 0 ->
  Cube.temp (Grid.cube g row col) <> 0 ->
  on_return fuel g strikes = Return (g1, strikes1, msgs1) ->
  (Success ∈ msgs1 /\ strikes1 = strikes
   /\ forall fuel', on_return fuel' g1 strikes1
        = Return (g1, strikes1 + 1,
                  Wrong :: (if Grid.is_finished g1 then [GameOver] else [])))
  \/ (Wrong ∈ msgs1 /\ strikes1 = strikes + 1
      /\ forall fuel', on_return fuel' g1 strikes1 = Return (g1, strikes1, [])).
Proof.
  intros Hw Hsel Hr Hc Hz Ht. unfold on_return at 1. rewrite Hsel.
  pose proof Ht as Ht'. apply Z.eqb_neq in Ht'. rewrite Ht'. cbn [negb].
  set (val := Cube.temp (Grid.cube g row col)) in *.
  destruct (Grid.place fuel g val) as [[r g']| |] eqn:Hp; [|done..].
  destruct (place_on_empty fuel g val row col r g' Hsel Hz Hp) as [b ->].
  destruct b; cbn [truthy]; intros [= <- <- <-].
  - left. split_and!; [by left|done|]. intros fuel'.
    destruct (place_committed g row col val Hsel fuel g' Hp) as (_ & _ & Hs).
    apply solve_returns_post in Hs as (Hg' & _ & _); [|by apply place_g1_shape].
    assert (Grid.cube g' row col = Cube.set (Grid.cube g row col) val) as Hcube.
    { rewrite Hg', cube_with_model. by apply place_g1_cube_sel. }
    apply (on_return_filled_cell_aux fuel' g' strikes row col).
    + by rewrite Hg'.
    + by rewrite Hcube.
    + by rewrite Hcube.
  - right. split_and!; [by left|done|]. intros fuel'.
    destruct (place_rejected g row col val Hw Hsel fuel g' Hp) as (_ & -> & _).
    unfold on_return.
    change (Grid.selected (Grid.place_undo (Grid.place_set g row col val) row col))
      with (Grid.selected g).
    rewrite Hsel, (place_undo_cube_sel g row col val Hw Hr Hc). done.
Qed.

Lemma on_return_twice_witness :
  exists g1,
    on_return 82 (game two_holes 2 3 3) 0 = Return (g1, 0, [Success])
    /\ on_return 82 g1 0 = Return (g1, 1, [Wrong]).
Proof.
  eexists. split; [vm_compute; reflexivity|].
  edestruct (on_return_twice 82 (game two_holes 2 3 3) 0 2 3)
    as [(_ & _ & H2)|(_ & Hs & _)];
    [reflexivity|reflexivity|lia|lia|reflexivity|by vm_compute
    |vm_compute; reflexivity| |discriminate Hs].
  exact (H2 82%nat).
Defined.

(** ** The dropdown *)

Lemma py_index_nat {A} (l : list A) (k : nat) : py_index l (Z.of_nat k) = l !! k.
Proof.
  unfold py_index. destruct (0 <=? Z.of_nat k) eqn:E; [by rewrite Nat2Z.id|].
  apply Z.leb_gt in E. lia.
Qed.

Lemma py_index_elem {A} (l : list A) (i : Z) (x : A) : py_index l i = Some x -> x ∈ l.
Proof.
  unfold py_index. destruct (0 <=? i); [by apply list_elem_of_lookup_2|].
  destruct (- Z.of_nat (length l) <=? i); [by apply list_elem_of_lookup_2|done].
Qed.

Lemma div_between (a h : Z) (k : nat) :
  0 < h -> Z.of_nat k * h <= a < (Z.of_nat k + 1) * h -> a `div` h = Z.of_nat k.
Proof.
  intros Hh Ha. symmetry. apply (Z.div_unique_pos a h _ (a - h * Z.of_nat k)); lia.
Qed.

(** X13. A click on an expanded dropdown, inside the rectangle [draw]
    gives option [k], returns that option, makes it the selected one and
    collapses the dropdown, unless it falls on the leftmost pixel column
    of the rectangle or on the top row of the first option: the
    comparisons of [click] are strict, so there the click is lost, [None]
    is returned and the dropdown stays as it is. *)
Theorem dropdown_click_option d k o position :
  0 < Dropdown.height d -> Dropdown.is_expanded d = true ->
  Dropdown.options_list d !! k = Some o ->
  Dropdown.over_option d k position ->
  (position.1 <> Dropdown.pos_x d
   /\ position.2 <> Dropdown.pos_y d + Dropdown.height d ->
   exists d',
     Dropdown.click d position = Some (Some o, d')
     /\ Dropdown.get_selected_option d' = Some o
     /\ Dropdown.current_index d' = Z.of_nat k
     /\ Dropdown.is_expanded d' = false)
  /\ (position.1 = Dropdown.pos_x d
      \/ position.2 = Dropdown.pos_y d + Dropdown.height d ->
      Dropdown.click d position = Some (None, d)).
Proof.
  intros Hh Hexp Hk [Hx Hy].
  pose proof (lookup_lt_Some _ _ _ Hk) as Hlen.
  unfold Dropdown.click. rewrite Hexp. cbn [negb]. rewrite andb_false_r, andb_true_r.
  split.
  - intros [Hleft Hedge].
    assert ((Dropdown.pos_x d <? position.1)
            && (position.1 <? Dropdown.pos_x d + Dropdown.width d) = true) as ->.
    { apply andb_true_intro. split; apply Z.ltb_lt; lia. }
    assert ((Dropdown.pos_y d + Dropdown.height d <? position.2)
            && (position.2 <? Dropdown.pos_y d + Dropdown.height d
                  * (Z.of_nat (length (Dropdown.options_list d)) + 1)) = true) as ->.
    { apply andb_true_intro. split; apply Z.ltb_lt; nia. }
    cbv zeta. cbn [Dropdown.options_list Dropdown.current_index].
    rewrite (div_between _ _ k Hh) by nia.
    rewrite py_index_nat, Hk. eexists. split; [done|].
    unfold Dropdown.get_selected_option.
    cbn [Dropdown.options_list Dropdown.current_index Dropdown.is_expanded].
    by rewrite py_index_nat.
  - intros [Hleft|Hedge].
    + assert ((Dropdown.pos_x d <? position.1) = false) as ->; [|done].
      apply Z.ltb_ge. lia.
    + assert ((Dropdown.pos_y d + Dropdown.height d <? position.2) = false) as ->.
      { apply Z.ltb_ge. lia. }
      by destruct (_ && _).
Qed.

Lemma dropdown_click_option_witness :
  (exists d',
     Dropdown.click (Dropdown.mk 185 550 100 50 ["Easy"; "Medium"; "Hard"]%string true 1)
       (200, 720)
     = Some (Some "Hard"%string, d')
     /\ Dropdown.get_selected_option d' = Some "Hard"%string
     /\ Dropdown.current_index d' = 2
     /\ Dropdown.is_expanded d' = false)
  /\ Dropdown.click (Dropdown.mk 185 550 100 50 ["Easy"; "Medium"; "Hard"]%string true 0)
       (185, 675)
     = Some (None, Dropdown.mk 185 550 100 50 ["Easy"; "Medium"; "Hard"]%string true 0).
Proof.
  split.
  - apply (dropdown_click_option
             (Dropdown.mk 185 550 100 50 ["Easy"; "Medium"; "Hard"]%string true 1)
             2 "Hard"%string (200, 720));
      [reflexivity|reflexivity|reflexivity|unfold Dropdown.over_option; simpl; lia
      |simpl; lia].
  - apply (dropdown_click_option
             (Dropdown.mk 185 550 100 50 ["Easy"; "Medium"; "Hard"]%string true 0)
             1 "Medium"%string (185, 675));
      [reflexivity|reflexivity|reflexivity|unfold Dropdown.over_option; simpl; lia
      |simpl; lia].
Defined.

(** X14. Whatever the click, a dropdown with rows of positive height and
    a valid selection never raises [IndexError] and keeps a valid
    selection, so [get_selected_option] stays defined.  An option is
    returned only from an expanded dropdown, which it collapses; and an
    expanded dropdown that returns none is left exactly as it was: it
    closes only when an option is chosen. *)
Theorem dropdown_click_invariant d position :
  0 < Dropdown.height d ->
  0 <= Dropdown.current_index d < Z.of_nat (length (Dropdown.options_list d)) ->
  exists r d',
    Dropdown.click d position = Some (r, d')
    /\ 0 <= Dropdown.current_index d' < Z.of_nat (length (Dropdown.options_list d'))
    /\ is_Some (Dropdown.get_selected_option d')
    /\ Dropdown.options_list d' = Dropdown.options_list d
    /\ (forall o, r = Some o ->
          Dropdown.get_selected_option d' = Some o
          /\ Dropdown.is_expanded d = true /\ Dropdown.is_expanded d' = false)
    /\ (r = None -> Dropdown.current_index d' = Dropdown.current_index d)
    /\ (r = None -> Dropdown.is_expanded d = true -> d' = d).
Proof.
  intros Hh Hidx.
  assert (forall d0 : Dropdown.t,
            0 <= Dropdown.current_index d0
                 < Z.of_nat (length (Dropdown.options_list d0)) ->
            is_Some (Dropdown.get_selected_option d0)) as Hsel.
  { intros d0 H0. unfold Dropdown.get_selected_option.
    rewrite <- (Z2Nat.id (Dropdown.current_index d0)) by lia.
    rewrite py_index_nat. apply lookup_lt_is_Some. lia. }
  unfold Dropdown.click.
  destruct ((Dropdown.pos_x d <? position.1)
            && (position.1 <? Dropdown.pos_x d + Dropdown.width d)).
  2: { exists None, d. split_and!; first [done|lia|by apply Hsel]. }
  destruct ((Dropdown.pos_y d <? position.2)
            && (position.2 <? Dropdown.pos_y d + Dropdown.height d)
            && negb (Dropdown.is_expanded d)) eqn:E1.
  { eexists None, _. split; [done|].
    apply andb_prop in E1 as [_ Hne%negb_true_iff].
    split_and!; [simpl; lia|simpl; lia|by apply Hsel|done|done|done|].
    intros _ Ht. congruence. }
  destruct ((Dropdown.pos_y d + Dropdown.height d <? position.2)
            && (position.2 <? Dropdown.pos_y d + Dropdown.height d
                  * (Z.of_nat (length (Dropdown.options_list d)) + 1))
            && Dropdown.is_expanded d) eqn:E2.
  2: { exists None, d. split_and!; first [done|lia|by apply Hsel]. }
  apply andb_prop in E2 as [[Hlo%Z.ltb_lt Hhi%Z.ltb_lt]%andb_prop Hexp].
  cbv zeta. cbn [Dropdown.options_list Dropdown.current_index].
  set (idx := (position.2 - Dropdown.pos_y d - Dropdown.height d)
                `div` Dropdown.height d).
  assert (0 <= idx < Z.of_nat (length (Dropdown.options_list d))) as Hrange.
  { unfold idx. split; [apply Z.div_pos; lia|].
    apply Z.div_lt_upper_bound; [done|nia]. }
  destruct (py_index (Dropdown.options_list d) idx) as [o|] eqn:Ho.
  - set (d' := Dropdown.mk (Dropdown.pos_x d) (Dropdown.pos_y d) (Dropdown.width d)
                 (Dropdown.height d) (Dropdown.options_list d) false idx).
    assert (Dropdown.get_selected_option d' = Some o) as Hget by exact Ho.
    exists (Some o), d'. split; [done|]. split; [simpl; lia|].
    split; [by rewrite Hget|]. split; [done|]. split; [|by split].
    intros o' [= <-]. by split_and!.
  - exfalso. rewrite <- (Z2Nat.id idx) in Ho by lia. rewrite py_index_nat in Ho.
    apply lookup_ge_None_1 in Ho. lia.
Qed.

Lemma dropdown_click_invariant_witness :
  exists r d',
    Dropdown.click difficulty_dropdown (200, 560) = Some (r, d')
    /\ is_Some (Dropdown.get_selected_option d').
Proof.
  destruct (dropdown_click_invariant difficulty_dropdown (200, 560))
    as (r & d' & Hc & _ & Hs & _); [reflexivity|simpl; lia|].
  by exists r, d'.
Defined.

(** X15. Every option a click on the difficulty dropdown can return has a
    mask rate: [get_mask_rate] never answers [None] on it, and the rate
    lies strictly between 0 and 1. *)
Theorem dropdown_option_has_mask_rate d position o d' :
  Dropdown.options_list d = ["Easy"; "Medium"; "Hard"]%string ->
  Dropdown.click d position = Some (Some o, d') ->
  exists q, Grid.get_mask_rate o = Some q /\ (0 < q)%Q /\ (q < 1)%Q.
Proof.
  intros Hopts. unfold Dropdown.click.
  destruct (_ && _); [|done]. destruct (_ && _ && _); [done|].
  destruct (_ && _ && _); [|done]. cbv zeta.
  cbn [Dropdown.options_list Dropdown.current_index].
  destruct (py_index _ _) as [o'|] eqn:Ho; [|done]. intros [= -> _].
  apply py_index_elem in Ho. rewrite Hopts in Ho.
  apply elem_of_cons in Ho as [->|Ho]; [by eexists|].
  apply elem_of_cons in Ho as [->|Ho]; [by eexists|].
  apply elem_of_cons in Ho as [->|Ho]; [by eexists|].
  by apply elem_of_nil in Ho.
Qed.

Lemma dropdown_option_has_mask_rate_witness :
  exists q, Grid.get_mask_rate "Hard" = Some q /\ (0 < q)%Q /\ (q < 1)%Q.
Proof.
  eapply (dropdown_option_has_mask_rate
            (Dropdown.mk 185 550 100 50 ["Easy"; "Medium"; "Hard"]%string true 1)
            (200, 720) "Hard"%string);
    [reflexivity|vm_compute; reflexivity].
Defined.

(** ** Clicks on the grid *)

(** On integers below 2^53 the floats of [click] are exact: every
    intermediate value is an integer that a double holds, so no operation
    rounds. *)
Section PyFloatExact.
Import SpecFloat PyFloat.

Lemma digits2_size p : digits2_pos p = Pos.size p.
Proof. induction p; simpl; congruence. Qed.

Lemma Zdigits2_log2 n : 0 < n -> Zdigits2 n = Z.log2 n + 1.
Proof.
  destruct n as [|p|p]; [lia| |lia]. intros _. simpl. rewrite digits2_size.
  destruct p; simpl; lia.
Qed.

Lemma log2_lt53 n : 0 < n < 2 ^ 53 -> 0 <= Z.log2 n < 53.
Proof.
  intros [H0 H]. split; [apply Z.log2_nonneg|].
  apply Z.log2_lt_pow2; lia.
Qed.

Lemma shr_1_double z :
  0 < z -> shr_1 (Build_shr_record (2 * z) false false) = Build_shr_record z false false.
Proof. by destruct z. Qed.

Lemma iter_shr_exact p m :
  0 < m ->
  iter_pos shr_1 p (Build_shr_record (m * 2 ^ Z.pos p) false false)
  = Build_shr_record m false false.
Proof.
  revert m. induction p as [p IH|p IH|]; intros m Hm; cbn [iter_pos].
  - replace (m * 2 ^ Z.pos p~1) with (2 * (m * 2 ^ Z.pos p * 2 ^ Z.pos p)).
    2:{ rewrite Pos2Z.inj_xI, Z.pow_add_r, Z.pow_mul_r, Z.pow_1_r by lia.
        replace (2 ^ 2) with 4 by done.
        assert (2 ^ Z.pos p * 2 ^ Z.pos p = 4 ^ Z.pos p) as E.
        { rewrite <- Z.pow_mul_l. done. }
        rewrite <- E. ring. }
    rewrite shr_1_double by (pose proof (Z.pow_pos_nonneg 2 (Z.pos p)); nia).
    rewrite IH by (pose proof (Z.pow_pos_nonneg 2 (Z.pos p)); nia).
    by apply IH.
  - replace (m * 2 ^ Z.pos p~0) with (m * 2 ^ Z.pos p * 2 ^ Z.pos p).
    2:{ rewrite Pos2Z.inj_xO, <- Z.mul_assoc, <- Z.pow_add_r by lia. f_equal. f_equal. lia. }
    rewrite IH by (pose proof (Z.pow_pos_nonneg 2 (Z.pos p)); nia).
    by apply IH.
  - replace (m * 2 ^ 1) with (2 * m) by lia. by apply shr_1_double.
Qed.

(** Rounding a value that is a double already. *)
Lemma binary_round_aux_exact n t :
  0 < n < 2 ^ 53 -> 0 <= t -> 52 - Z.log2 n <= t ->
  binary_round_aux prec emax false (n * 2 ^ t) (- t) loc_Exact = Fpos n.
Proof.
  intros Hn Ht Hd. pose proof (log2_lt53 n Hn) as Hl.
  assert (0 < 2 ^ t) as Hp by (by apply Z.pow_pos_nonneg).
  set (s := t - (52 - Z.log2 n)).
  assert (0 <= s) as Hs by (unfold s; lia).
  set (m := n * 2 ^ (52 - Z.log2 n)).
  assert (0 < m) as Hm.
  { unfold m. pose proof (Z.pow_pos_nonneg 2 (52 - Z.log2 n)). nia. }
  assert (n * 2 ^ t = m * 2 ^ s) as Em.
  { unfold m, s. rewrite <- Z.mul_assoc, <- Z.pow_add_r by lia. do 2 f_equal. lia. }
  assert (Z.log2 m = 52) as Lm.
  { unfold m. rewrite Z.log2_mul_pow2 by lia. lia. }
  assert (shr_fexp prec emax (n * 2 ^ t) (- t) loc_Exact
          = (Build_shr_record m false false, Z.log2 n - 52)) as E1.
  { unfold shr_fexp. rewrite Zdigits2_log2 by nia.
    rewrite Z.log2_mul_pow2 by lia.
    unfold fexp, emin, prec, emax. 
    replace (Z.max (t + Z.log2 n + 1 + - t - 53) (3 - 1024 - 53) - - t) with s
      by (unfold s; lia).
    unfold shr, shr_record_of_loc. destruct s as [|p|p] eqn:Es; [| |lia].
    - rewrite Em. rewrite Z.pow_0_r, Z.mul_1_r. f_equal. unfold s in Es. lia.
    - rewrite Em, iter_shr_exact by done. f_equal. unfold s in Es. lia. }
  assert (shr_fexp prec emax m (Z.log2 n - 52) loc_Exact
          = (Build_shr_record m false false, Z.log2 n - 52)) as E2.
  { unfold shr_fexp. rewrite Zdigits2_log2, Lm by done.
    unfold fexp, emin, prec, emax.
    replace (Z.max (52 + 1 + (Z.log2 n - 52) - 53) (3 - 1024 - 53) - (Z.log2 n - 52))
      with 0 by lia.
    done. }
  unfold binary_round_aux. rewrite E1. cbn [shr_m loc_of_shr_record round_nearest_even].
  rewrite E2. cbn [shr_m]. destruct m as [|pm|pm] eqn:Epm; [lia| |lia].
  unfold prec, emax. destruct (Z.leb_spec (Z.log2 n - 52) (1024 - 53)); [|lia].
  unfold Fpos. f_equal; [|lia].
  replace (53 - (Z.log2 n + 1)) with (52 - Z.log2 n) by lia. fold m. by rewrite Epm.
Qed.

Lemma Fpos_mant n :
  0 < n < 2 ^ 53 ->
  Z.pos (Z.to_pos (n * 2 ^ (53 - (Z.log2 n + 1)))) = n * 2 ^ (- (Z.log2 n + 1 - 53))
  /\ Z.log2 n + 1 - 53 <= 0.
Proof.
  intros Hn. pose proof (log2_lt53 n Hn).
  replace (- (Z.log2 n + 1 - 53)) with (53 - (Z.log2 n + 1)) by lia.
  pose proof (Z.pow_pos_nonneg 2 (53 - (Z.log2 n + 1))).
  split; [rewrite Z2Pos.id; nia|lia].
Qed.

Lemma iter_xO_pow m d : Z.pos (Pos.iter xO m d) = Z.pos m * 2 ^ Z.pos d.
Proof.
  change (Pos.iter xO m d) with (shift_pos d m).
  rewrite shift_pos_correct. change (Zpower_pos 2 d) with (2 ^ Z.pos d). lia.
Qed.

Lemma shl_align_val m e e' :
  e' <= e -> Z.pos (fst (shl_align m e e')) = Z.pos m * 2 ^ (e - e').
Proof.
  intros He. unfold shl_align. destruct (e' - e) as [|d|d] eqn:E; [|lia|].
  - replace (e - e') with 0 by lia. simpl. lia.
  - cbn [fst]. rewrite iter_xO_pow. f_equal. f_equal. lia.
Qed.

Lemma binary_normalize_exact n t sz :
  0 < n < 2 ^ 53 -> 0 <= t ->
  binary_normalize prec emax (n * 2 ^ t) (- t) sz = Fpos n.
Proof.
  intros Hn Ht. pose proof (log2_lt53 n Hn) as Hl.
  assert (0 < 2 ^ t) as Hp by (by apply Z.pow_pos_nonneg).
  destruct (n * 2 ^ t) as [|m|m] eqn:Em; [nia| |nia].
  unfold binary_normalize, binary_round.
  assert (fexp prec emax (Z.pos (digits2_pos m) + - t) = Z.log2 n - 52) as ->.
  { change (Z.pos (digits2_pos m)) with (Zdigits2 (Z.pos m)).
    rewrite Zdigits2_log2, <- Em, Z.log2_mul_pow2 by lia.
    unfold fexp, emin, prec, emax. lia. }
  unfold shl_align. destruct (Z.log2 n - 52 - - t) as [|d|d] eqn:Ed.
  - rewrite <- Em. apply binary_round_aux_exact; lia.
  - rewrite <- Em. apply binary_round_aux_exact; lia.
  - rewrite iter_xO_pow, <- Em, <- Z.mul_assoc, <- Z.pow_add_r by lia.
    replace (Z.log2 n - 52) with (- (t + Z.neg d + 2 * Z.pos d)) at 1 by lia.
    replace (t + Z.pos d) with (t + Z.neg d + 2 * Z.pos d) by lia.
    apply binary_round_aux_exact; lia.
Qed.

Lemma Fpos_stands_for n :
  0 < n < 2 ^ 53 ->
  exists m e, Fpos n = S754_finite false m e /\ stands_for m e n.
Proof.
  intros Hn. destruct (Fpos_mant n Hn) as [Hm He].
  eexists _, _. split; [done|]. split; [lia|]. rewrite Hm. do 2 f_equal. 
Qed.

Lemma SFdiv_exact ma ea mb eb a b q :
  stands_for ma ea a -> stands_for mb eb b ->
  a = q * b -> 0 < q -> 0 < b -> a < 2 ^ 53 ->
  SFdiv prec emax (S754_finite false ma ea) (S754_finite false mb eb) = Fpos q.
Proof.
  intros [Hea Ha] [Heb Hb] -> Hq Hb0 Hlt.
  assert (0 < q * b) as Ha0 by nia.
  assert (0 < q < 2 ^ 53 /\ 0 < b < 2 ^ 53) as [Hq53 Hb53] by nia.
  pose proof (log2_lt53 _ (conj Ha0 Hlt)) as Hla.
  pose proof (log2_lt53 _ Hq53) as Hlq. pose proof (log2_lt53 _ Hb53) as Hlb.
  assert (Z.log2 (q * b) <= Z.log2 q + Z.log2 b + 1) as Hlog.
  { pose proof (Z.log2_mul_above q b). lia. }
  assert (0 < 2 ^ (- ea) /\ 0 < 2 ^ (- eb)) as [Hpa Hpb]
    by (split; apply Z.pow_pos_nonneg; lia).
  unfold SFdiv, SFdiv_core_binary.
  rewrite !Zdigits2_log2 by lia. rewrite Ha, Hb, !Z.log2_mul_pow2 by lia.
  set (e' := Z.min _ _).
  assert (e' <= Z.log2 (q * b) - Z.log2 b - 53 /\ e' <= ea - eb) as [He1 He2].
  { unfold e', fexp, emin, prec, emax. lia. }
  set (s := ea - eb - e').
  assert (0 < 2 ^ (- e')) as Hpe by (apply Z.pow_pos_nonneg; lia).
  assert (match s with
          | 0 => q * b * 2 ^ (- ea)
          | Z.pos _ => Z.shiftl (q * b * 2 ^ (- ea)) s
          | Z.neg _ => 0
          end = q * 2 ^ (- e') * (b * 2 ^ (- eb))) as ->.
  { assert (q * b * 2 ^ (- ea) * 2 ^ s = q * 2 ^ (- e') * (b * 2 ^ (- eb))) as E.
    { transitivity (q * b * 2 ^ (- ea + s)); [rewrite Z.pow_add_r by (unfold s; lia); ring|].
      replace (- ea + s) with (- e' + - eb) by (unfold s; lia).
      rewrite Z.pow_add_r by lia. ring. }
    destruct s as [|p|p] eqn:Es; [|by rewrite Z.shiftl_mul_pow2|unfold s in Es; lia].
    rewrite <- E. simpl. lia. }
  assert (Z.div_eucl (q * 2 ^ (- e') * (b * 2 ^ (- eb))) (b * 2 ^ (- eb))
          = (q * 2 ^ (- e'), 0)) as ->.
  { pose proof (Z.div_mul (q * 2 ^ (- e')) (b * 2 ^ (- eb))) as Hd.
    pose proof (Z.mod_mul (q * 2 ^ (- e')) (b * 2 ^ (- eb))) as Hr.
    unfold Z.div, Z.modulo in Hd, Hr.
    destruct (Z.div_eucl _ _) as [q0 r0]. f_equal; [apply Hd|apply Hr]; nia. }
  assert (new_location (b * 2 ^ (- eb)) 0 = loc_Exact) as ->.
  { unfold new_location. by destruct (Z.even _). }
  replace e' with (- - e') at 2 by lia.
  apply binary_round_aux_exact; lia.
Qed.

Lemma SFsub_exact a b :
  0 < b -> b <= a -> a < 2 ^ 53 ->
  SFsub prec emax (Fpos a) (Fpos b) = Fz (a - b).
Proof.
  intros Hb Hab Ha.
  destruct (Fpos_stands_for a) as (ma & ea & -> & Hea & Hma); [lia|].
  destruct (Fpos_stands_for b) as (mb & eb & -> & Heb & Hmb); [lia|].
  unfold SFsub. cbv zeta. cbn [cond_Zopp].
  rewrite !shl_align_val, Hma, Hmb by lia.
  set (ez := Z.min ea eb).
  assert (a * 2 ^ (- ea) * 2 ^ (ea - ez) - b * 2 ^ (- eb) * 2 ^ (eb - ez)
          = (a - b) * 2 ^ (- ez)) as ->.
  { rewrite <- !Z.mul_assoc, <- !Z.pow_add_r by (unfold ez; lia).
    replace (- ea + (ea - ez)) with (- ez) by lia.
    replace (- eb + (eb - ez)) with (- ez) by lia. ring. }
  unfold Fz. destruct (Z.eqb_spec (a - b) 0) as [->|Hne]; [done|].
  replace ez with (- - ez) at 2 by lia.
  apply binary_normalize_exact; unfold ez; lia.
Qed.

Lemma fmod_exact p k :
  0 < p < 2 ^ 53 -> 0 < k < 2 ^ 53 ->
  fmod (Fpos p) (Fpos k) = Fz (p mod k).
Proof.
  intros Hp Hk.
  destruct (Fpos_stands_for p Hp) as (mp & ep & -> & Hep & Hmp).
  destruct (Fpos_stands_for k Hk) as (mk & ek & -> & Hek & Hmk).
  unfold fmod. cbv zeta. cbn [cond_Zopp]. rewrite Hmp, Hmk.
  set (e := Z.min ep ek).
  assert (p * 2 ^ (- ep) * 2 ^ (ep - e) = p * 2 ^ (- e)) as ->.
  { rewrite <- Z.mul_assoc, <- Z.pow_add_r by (unfold e; lia). do 2 f_equal. lia. }
  assert (k * 2 ^ (- ek) * 2 ^ (ek - e) = k * 2 ^ (- e)) as ->.
  { rewrite <- Z.mul_assoc, <- Z.pow_add_r by (unfold e; lia). do 2 f_equal. lia. }
  assert (0 < 2 ^ (- e)) as Hpe by (apply Z.pow_pos_nonneg; unfold e; lia).
  rewrite Zmult_mod_distr_r.
  pose proof (Z.mod_pos_bound p k) as Hr.
  unfold Fz. destruct (Z.eqb_spec (p mod k) 0) as [->|Hne]; [done|].
  replace e with (- - e) at 2 by lia.
  apply binary_normalize_exact; unfold e; lia.
Qed.

Lemma floor_exact q : 0 < q < 2 ^ 53 -> floor (Fpos q) = Fpos q.
Proof.
  intros Hq. destruct (Fpos_stands_for q Hq) as (m & e & E & He & Hm).
  rewrite E. unfold floor. destruct (Z.leb_spec 0 e) as [|Hlt]; [done|].
  cbn [cond_Zopp]. rewrite Hm, Z.div_mul by (apply Z.pow_nonzero; lia).
  rewrite <- E. replace q with (q * 2 ^ 0) at 1 by (simpl; lia).
  by apply (binary_normalize_exact q 0).
Qed.

Lemma to_int_exact q : 0 <= q < 2 ^ 53 -> to_int (Fz q) = Ok q.
Proof.
  intros Hq. unfold Fz. destruct (Z.eqb_spec q 0) as [->|Hne]; [done|].
  destruct (Fpos_stands_for q) as (m & e & -> & He & Hm); [lia|].
  unfold to_int. cbn [cond_Zopp]. f_equal. rewrite Hm.
  destruct (Z.leb_spec 0 e).
  - replace e with 0 by lia. simpl. lia.
  - apply Z.div_mul, Z.pow_nonzero; lia.
Qed.

Lemma of_int_exact p : 0 <= p < 2 ^ 53 -> of_int p = Ok (Fz p).
Proof.
  intros Hp. unfold of_int, Fz. destruct (Z.eqb_spec p 0) as [->|Hne]; [done|].
  replace p with (p * 2 ^ 0) at 1 by (simpl; lia).
  by rewrite (binary_normalize_exact p 0) by lia.
Qed.

Lemma int_truediv_exact k :
  0 < k -> 9 * k < 2 ^ 53 -> int_truediv (9 * k) 9 = Ok (Fpos k).
Proof.
  intros Hk Hlt. unfold int_truediv. cbn [Z.eqb].
  destruct (9 * k) as [|m|m] eqn:Em; [lia| |lia]. cbn [raw].
  rewrite (SFdiv_exact m 0 9 0 (9 * k) 9 k); [done|split; simpl; lia..|lia|lia|lia|lia].
Qed.

Lemma Fpos_not_zero n : is_zero (Fpos n) = false.
Proof. done. Qed.

Lemma Fz_ltb_zero n : 0 <= n -> SFltb (Fz n) zero = false.
Proof. unfold Fz. by destruct (n =? 0). Qed.

Lemma Fz_is_zero n : is_zero (Fz n) = (n =? 0).
Proof. unfold Fz. by destruct (n =? 0). Qed.

Lemma SFdiv_sign ma ea mb eb :
  sign (SFdiv prec emax (S754_finite false ma ea) (S754_finite false mb eb)) = false.
Proof.
  unfold SFdiv. destruct (SFdiv_core_binary _ _ _ _ _ _) as [[mz ez] lz].
  unfold binary_round_aux.
  destruct (shr_fexp _ _ _ _ _) as [mrs' e'].
  destruct (shr_fexp _ _ _ _ _) as [mrs'' e''].
  destruct (shr_m mrs'') as [|m|m]; [done| |done]. by destruct (_ <=? _).
Qed.

(** [p // float(k)] for small integers is the integer quotient. *)
Lemma int_floordiv_exact p k :
  0 <= p < 2 ^ 53 -> 0 < k < 2 ^ 53 ->
  exists f, int_floordiv_float p (Fpos k) = Ok f /\ to_int f = Ok (p `div` k).
Proof.
  intros Hp Hk. unfold int_floordiv_float. rewrite of_int_exact by done.
  cbn [bind]. unfold floordiv. rewrite Fpos_not_zero. cbv zeta.
  pose proof (Z.div_mod p k) as Hdm. pose proof (Z.mod_pos_bound p k) as Hr.
  assert (0 <= p `div` k) as Hq by (apply Z.div_pos; lia).
  assert (p `div` k < 2 ^ 53) as Hq53 by nia.
  destruct (Z.eqb_spec p 0) as [->|Hp0].
  { exists (S754_zero false). by rewrite Z.div_0_l by lia. }
  assert (Fz p = Fpos p) as Ep by (unfold Fz; by destruct (Z.eqb_spec p 0)).
  rewrite Ep, fmod_exact by lia.
  assert (SFsub prec emax (Fpos p) (Fz (p `mod` k)) = Fz (k * p `div` k)) as ->.
  { unfold Fz at 1. destruct (Z.eqb_spec (p `mod` k) 0) as [E|E].
    - rewrite <- Ep. replace (k * p `div` k) with p by lia.
      unfold Fz. by destruct (p =? 0).
    - rewrite SFsub_exact by lia. f_equal. lia. }
  rewrite (Fz_ltb_zero (p `mod` k)) by lia.
  change (SFltb (Fpos k) zero) with false. cbn [Bool.eqb negb]. rewrite andb_false_r.
  destruct (Z.eqb_spec (p `div` k) 0) as [E0|E0].
  - rewrite E0, Z.mul_0_r. change (Fz 0) with (S754_zero false).
    destruct (Fpos_stands_for k Hk) as (mk & ek & -> & _).
    destruct (Fpos_stands_for p) as (mp & ep & -> & _); [lia|].
    change (SFdiv prec emax (S754_zero false) (S754_finite false mk ek))
      with (S754_zero false).
    cbn [is_zero negb]. eexists. split; [done|].
    unfold copysign0. by rewrite SFdiv_sign.
  - assert (SFdiv prec emax (Fz (k * p `div` k)) (Fpos k) = Fpos (p `div` k)) as ->.
    { unfold Fz. destruct (Z.eqb_spec (k * p `div` k) 0) as [|_]; [nia|].
      destruct (Fpos_stands_for k Hk) as (mk & ek & -> & Hsk).
      destruct (Fpos_stands_for (k * p `div` k)) as (ma & ea & -> & Hsa); [nia|].
      apply (SFdiv_exact _ _ _ _ _ _ _ Hsa Hsk); nia. }
    rewrite Fpos_not_zero, floor_exact by lia. cbn [negb].
    replace (SFsub prec emax (Fpos (p `div` k)) (Fpos (p `div` k))) with (Fz 0).
    2:{ rewrite SFsub_exact by lia. f_equal. lia. }
    change (SFltb half (Fz 0)) with false. cbv iota.
    eexists. split; [done|].
    replace (Fpos (p `div` k)) with (Fz (p `div` k))
      by (unfold Fz; by destruct (Z.eqb_spec (p `div` k) 0)).
    apply to_int_exact. lia.
Qed.

End PyFloatExact.

(** X16. When the grid is as wide as nine columns of [k] pixels, below
    2^53 in all, and no taller than wide, as the 540 by 540 of [run_game],
    the floats of [click] are exact: a click inside the grid on the screen
    gives the cell under the cursor, row and column both in 0..8, and a
    click outside gives [None]. *)
Theorem grid_click_cell width height k pos :
  width = 9 * k -> 0 < k -> width < 2 ^ 53 -> height <= width ->
  0 <= pos.1 -> 0 <= pos.2 ->
  (pos.1 < width /\ pos.2 < height ->
   exists row col,
     Grid.click width height pos = PyFloat.Ok (Some (row, col))
     /\ 0 <= row < 9 /\ 0 <= col < 9
     /\ col * k <= pos.1 < (col + 1) * k
     /\ row * k <= pos.2 < (row + 1) * k)
  /\ (~ (pos.1 < width /\ pos.2 < height) ->
      Grid.click width height pos = PyFloat.Ok None).
Proof.
  intros -> Hk H53 Hh Hx Hy. unfold Grid.click. split.
  - intros [Hx' Hy'].
    assert ((pos.1 <? 9 * k) && (pos.2 <? height) = true) as ->.
    { apply andb_true_intro. split; apply Z.ltb_lt; lia. }
    rewrite int_truediv_exact by lia. cbn [PyFloat.bind].
    destruct (int_floordiv_exact pos.1 k) as (fx & -> & Efx); [lia..|].
    destruct (int_floordiv_exact pos.2 k) as (fy & -> & Efy); [lia..|].
    cbn [PyFloat.bind]. rewrite Efy, Efx. cbn [PyFloat.bind].
    exists (pos.2 `div` k), (pos.1 `div` k). split; [done|].
    pose proof (Z.div_mod pos.1 k). pose proof (Z.mod_pos_bound pos.1 k Hk).
    pose proof (Z.div_mod pos.2 k). pose proof (Z.mod_pos_bound pos.2 k Hk).
    split_and!; nia.
  - intros Hout.
    destruct ((pos.1 <? 9 * k) && (pos.2 <? height)) eqn:E; [|done].
    apply andb_prop in E as [E1%Z.ltb_lt E2%Z.ltb_lt]. tauto.
Qed.

Lemma grid_click_cell_witness :
  exists row col,
    Grid.click grid_width grid_height (125, 539) = PyFloat.Ok (Some (row, col))
    /\ 0 <= row < 9 /\ 0 <= col < 9
    /\ col * 60 <= 125 < (col + 1) * 60
    /\ row * 60 <= 539 < (row + 1) * 60.
Proof.
  apply (grid_click_cell grid_width grid_height 60 (125, 539));
    [reflexivity|lia|by vm_compute|by vm_compute|simpl; lia|simpl; lia|].
  split; [by vm_compute|reflexivity].
Defined.

(** X17. The grid, the two buttons and the dropdown of the window do not
    overlap: a click inside the grid presses no button and leaves the
    dropdown as it is, and a click that presses one button misses the
    other and the dropdown. *)
Theorem widgets_do_not_overlap d pos :
  Dropdown.pos_x d = 185 -> Dropdown.pos_y d = 550 ->
  Dropdown.width d = 100 -> Dropdown.height d = 50 ->
  (Grid.click grid_width grid_height pos <> PyFloat.Ok None ->
   Button.click new_puzzle_button pos = false
   /\ Button.click help_button pos = false
   /\ Dropdown.click d pos = Some (None, d))
  /\ (Button.click new_puzzle_button pos = true ->
      Button.click help_button pos = false
      /\ Dropdown.click d pos = Some (None, d))
  /\ (Button.click help_button pos = true ->
      Dropdown.click d pos = Some (None, d)).
Proof.
  intros Hx Hy Hw Hh.
  assert (forall b : bool, (b = true -> False) -> b = false) as Hfalse
    by (intros []; [intros H; by destruct H|done]).
  assert (~ (185 < pos.1 < 285) \/ pos.2 <= 550 ->
          Dropdown.click d pos = Some (None, d)) as Hdrop.
  { intros Hout. unfold Dropdown.click. rewrite Hx, Hy, Hw, Hh.
    destruct ((185 <? pos.1) && (pos.1 <? 185 + 100)) eqn:E1; [|done].
    apply andb_prop in E1 as [?%Z.ltb_lt ?%Z.ltb_lt].
    destruct ((550 <? pos.2) && (pos.2 <? 550 + 50) && negb (Dropdown.is_expanded d))
      eqn:E2.
    { apply andb_prop in E2 as [[?%Z.ltb_lt _]%andb_prop _]. lia. }
    destruct ((550 + 50 <? pos.2) && _ && Dropdown.is_expanded d) eqn:E3; [|done].
    apply andb_prop in E3 as [[?%Z.ltb_lt _]%andb_prop _]. lia. }
  unfold Grid.click, grid_width, grid_height, Button.click,
    new_puzzle_button, help_button.
  cbn [Button.button_x Button.button_y Button.button_width Button.button_height].
  split_and!.
  - destruct ((pos.1 <? 540) && (pos.2 <? 770 - 230)) eqn:E;
      [|by intros []]. intros _.
    apply andb_prop in E as [?%Z.ltb_lt ?%Z.ltb_lt].
    split_and!; [apply Hfalse..|apply Hdrop; lia];
      rewrite !andb_true_iff, !Z.ltb_lt; lia.
  - rewrite !andb_true_iff, !Z.ltb_lt. intros H.
    split; [apply Hfalse; rewrite !andb_true_iff, !Z.ltb_lt; lia|apply Hdrop; lia].
  - rewrite !andb_true_iff, !Z.ltb_lt. intros H. apply Hdrop. lia.
Qed.

Lemma widgets_do_not_overlap_witness :
  Button.click new_puzzle_button (100, 575) = true
  /\ Button.click help_button (100, 575) = false
  /\ Dropdown.click difficulty_dropdown (100, 575) = Some (None, difficulty_dropdown).
Proof.
  split; [reflexivity|].
  apply (widgets_do_not_overlap difficulty_dropdown (100, 575)); reflexivity.
Defined.

(** ** [format_time] *)

Lemma time_fields_spec secs :
  let '(hours, minutes, seconds) := time_fields secs in
  hours * 3600 + minutes * 60 + seconds = secs
  /\ 0 <= minutes < 60 /\ 0 <= seconds < 60
  /\ (0 <= secs <-> 0 <= hours).
Proof.
  unfold time_fields.
  pose proof (Z.div_mod secs 60). pose proof (Z.mod_pos_bound secs 60).
  pose proof (Z.div_mod (secs `div` 60) 60).
  pose proof (Z.mod_pos_bound (secs `div` 60) 60).
  split_and!; lia.
Qed.

(** X18. The three numbers [format_time] prints account for the whole
    duration: hours, minutes and seconds add up to [secs], minutes and
    seconds stay in 0..59 (also before zero, where the hours turn
    negative), and the hours are never folded into days. *)
Theorem time_fields_sum secs :
  let '(hours, minutes, seconds) := time_fields secs in
  hours * 3600 + minutes * 60 + seconds = secs
  /\ 0 <= minutes < 60 /\ 0 <= seconds < 60
  /\ (0 <= secs <-> 0 <= hours).
Proof.
  unfold time_fields.
  assert (secs = 60 * (secs `div` 60) + secs `mod` 60) by (apply Z.div_mod; lia).
  assert (0 <= secs `mod` 60 < 60) by (apply Z.mod_pos_bound; lia).
  assert (secs `div` 60
          = 60 * ((secs `div` 60) `div` 60) + (secs `div` 60) `mod` 60)
    by (apply Z.div_mod; lia).
  assert (0 <= (secs `div` 60) `mod` 60 < 60) by (apply Z.mod_pos_bound; lia).
  split_and!; lia.
Qed.

Example format_time_samples :
  format_time 0 = "0 0:0"%string
  /\ format_time 65 = "0 1:5"%string
  /\ format_time 90061 = "25 1:1"%string
  /\ format_time (-1) = "-1 59:59"%string.
Proof. vm_compute. by split_and!. Qed.

Lemma pretty_N_go_free c x s :
  (forall n, pretty_N_char n <> c) -> free_of c s = true ->
  free_of c (pretty_N_go x s) = true.
Proof.
  intros Hc. revert s. induction (N.lt_wf_0 x) as [x _ IH]; intros s Hs.
  destruct (decide (0 < x)%N) as [Hx|Hx].
  - rewrite pretty_N_go_step by done. apply IH; [by apply N.div_lt|].
    cbn [free_of]. rewrite Hs, andb_true_r. apply negb_true_iff, Ascii.eqb_neq, Hc.
  - assert (x = 0%N) as -> by lia. by rewrite pretty_N_go_0.
Qed.

Lemma pretty_Z_free c (z : Z) :
  (forall n, pretty_N_char n <> c) -> c <> "-"%char ->
  free_of c (pretty z) = true.
Proof.
  intros Hc Hdash.
  assert (forall n : N, free_of c (pretty n) = true) as HN.
  { intros n. unfold pretty, pretty_N. destruct (decide (n = 0%N)).
    - cbn [free_of]. rewrite andb_true_r. apply negb_true_iff, Ascii.eqb_neq.
      apply (Hc 0%N).
    - by apply pretty_N_go_free. }
  unfold pretty, pretty_Z. destruct z as [|p|p].
  - apply (HN 0%N).
  - apply HN.
  - change (free_of c (String "-" (pretty (N.pos p))) = true).
    cbn [free_of]. rewrite (HN (N.pos p)), andb_true_r.
    apply negb_true_iff, Ascii.eqb_neq. congruence.
Qed.

Lemma append_sep_inj c a1 a2 r1 r2 :
  free_of c a1 = true -> free_of c a2 = true ->
  a1 +:+ String c r1 = a2 +:+ String c r2 -> a1 = a2 /\ r1 = r2.
Proof.
  revert a2. induction a1 as [|x a1 IH]; intros [|y a2]; cbn [free_of String.append].
  - by intros _ _ [= ->].
  - intros _ [Hy _]%andb_prop [= <- _].
    apply negb_true_iff, Ascii.eqb_neq in Hy. done.
  - intros [Hx _]%andb_prop _ [= -> _].
    apply negb_true_iff, Ascii.eqb_neq in Hx. done.
  - intros [_ H1]%andb_prop [_ H2]%andb_prop [= -> Heq].
    destruct (IH a2 H1 H2 Heq) as [-> ->]. done.
Qed.

(** X19. Different durations never print alike: the text of
    [format_time] determines [secs]. *)
Theorem format_time_inj a b : format_time a = format_time b -> a = b.
Proof.
  unfold format_time.
  pose proof (time_fields_spec a) as Ha. pose proof (time_fields_spec b) as Hb.
  destruct (time_fields a) as [[ha ma] sa], (time_fields b) as [[hb mb] sb].
  destruct Ha as (Ha & _), Hb as (Hb & _).
  assert (forall n, pretty_N_char n <> " "%char) as Hsp
    by (intros n; unfold pretty_N_char; by repeat case_match).
  assert (forall n, pretty_N_char n <> ":"%char) as Hco
    by (intros n; unfold pretty_N_char; by repeat case_match).
  change (pretty ha +:+ String " " (pretty ma +:+ String ":" (pretty sa))
          = pretty hb +:+ String " " (pretty mb +:+ String ":" (pretty sb)) -> a = b).
  intros H. apply append_sep_inj in H as [Hh H];
    [|by apply pretty_Z_free..].
  apply append_sep_inj in H as [Hm Hs]; [|by apply pretty_Z_free..].
  apply (inj pretty) in Hh, Hm, Hs. lia.
Qed.

Lemma format_time_inj_witness : 3725 = 3600 + 125.
Proof. apply (format_time_inj 3725 (3600 + 125)). vm_compute. reflexivity. Defined.

(** ** Wrapping text *)

Lemma append_nil_l (s : string) : "" +:+ s = s.
Proof. done. Qed.

Lemma append_cons (c : ascii) (s t : string) : String c s +:+ t = String c (s +:+ t).
Proof. done. Qed.

Section SplitJoin.
Variable sep : ascii.

Lemma split_on_cons_ne ch (s : string) :
  Ascii.eqb ch sep = false ->
  exists w ws, split_on sep s = w :: ws /\ split_on sep (String ch s) = String ch w :: ws.
Proof.
  intros Hne. cbn [split_on]. rewrite Hne.
  destruct (split_on sep s) as [|w ws] eqn:E.
  - destruct s; cbn [split_on] in E; [done|].
    destruct (Ascii.eqb a sep); [done|]. by destruct (split_on sep s).
  - by exists w, ws.
Qed.

Lemma split_on_free (s : string) :
  Forall (fun w => free_of sep w = true) (split_on sep s).
Proof.
  induction s as [|ch s IH]; [by repeat constructor|].
  destruct (Ascii.eqb ch sep) eqn:E.
  - cbn [split_on]. rewrite E. by constructor.
  - destruct (split_on_cons_ne ch s E) as (w & ws & Hs & ->).
    rewrite Hs in IH. apply Forall_cons_1 in IH as [Hw Hws].
    constructor; [|done]. cbn [free_of]. by rewrite E, Hw.
Qed.

Lemma split_on_app (w rest : string) :
  free_of sep w = true ->
  split_on sep (w +:+ String sep rest) = w :: split_on sep rest.
Proof.
  induction w as [|ch w IH]; cbn [free_of].
  - intros _. rewrite append_nil_l. cbn [split_on]. by rewrite Ascii.eqb_refl.
  - intros [Hch Hw]%andb_prop. apply negb_true_iff in Hch.
    rewrite append_cons. cbn [split_on]. rewrite Hch, (IH Hw). done.
Qed.

Lemma split_on_word (w : string) : free_of sep w = true -> split_on sep w = [w].
Proof.
  induction w as [|ch w IH]; cbn [free_of]; [done|].
  intros [Hch Hw]%andb_prop. apply negb_true_iff in Hch.
  cbn [split_on]. by rewrite Hch, (IH Hw).
Qed.

End SplitJoin.

Lemma join_cons (w w' : string) ws :
  join (w :: w' :: ws) = w +:+ String " " (join (w' :: ws)).
Proof. done. Qed.

Lemma split_join ws :
  ws <> [] -> Forall (fun w => free_of " " w = true) ws ->
  split_on " " (join ws) = ws.
Proof.
  induction ws as [|w ws IH]; [done|]. intros _ [Hw Hws]%Forall_cons_1.
  destruct ws as [|w' ws]; [by apply split_on_word|].
  rewrite join_cons, split_on_app by done. f_equal. by apply IH.
Qed.

(** A word of a line: not empty and without a space. *)
Local Abbreviation is_word := (fun w : string => free_of " " w = true /\ nonempty w = true).

Lemma filter_words ws : Forall is_word ws -> List.filter nonempty ws = ws.
Proof.
  induction 1 as [|w ws [_ Hw] _ IH]; [done|]. cbn [List.filter]. by rewrite Hw, IH.
Qed.

Lemma words_of_join ws : Forall is_word ws -> words_of (join ws) = ws.
Proof.
  intros Hws. unfold words_of. destruct ws as [|w ws]; [done|].
  rewrite split_join; [by apply filter_words|done|].
  eapply Forall_impl; [exact Hws|]. by intros ? [? _].
Qed.

Section Wrap.
Variable size : string -> Z.
Variable max_width : Z.

Lemma wrap_words_words ws lines cur lines' cur' :
  Forall (fun w => free_of " " w = true) ws -> Forall is_word cur ->
  wrap_words size max_width ws lines cur = (lines', cur') ->
  Forall is_word cur'
  /\ List.concat (List.map words_of lines') ++ cur'
     = List.concat (List.map words_of lines) ++ cur ++ List.filter nonempty ws.
Proof.
  revert lines cur. induction ws as [|w ws IH]; intros lines cur Hws Hcur.
  { intros [= <- <-]. by rewrite app_nil_r. }
  apply Forall_cons_1 in Hws as [Hw Hws]. cbn [wrap_words List.filter].
  destruct (nonempty w) eqn:Hne; [|by apply IH].
  assert (is_word w) as Hword by done.
  destruct (size (join (cur ++ [w])) <=? max_width).
  - intros H. apply IH in H as [Hc' Heq]; [|done|].
    + split; [done|]. rewrite Heq, <- !app_assoc. done.
    + apply Forall_app. split; [done|by constructor].
  - intros H. apply IH in H as [Hc' Heq]; [|done|by constructor].
    split; [done|]. rewrite Heq, List.map_app, List.concat_app.
    cbn [List.map List.concat]. rewrite words_of_join, app_nil_r by done.
    by rewrite <- !app_assoc.
Qed.

Lemma wrap_paragraph_words lines paragraph :
  List.concat (List.map words_of (wrap_paragraph size max_width lines paragraph))
  = List.concat (List.map words_of lines) ++ words_of paragraph.
Proof.
  unfold wrap_paragraph.
  destruct (wrap_words size max_width (split_on " " paragraph) lines [])
    as [lines' cur'] eqn:Hw.
  apply wrap_words_words in Hw as [Hc Heq]; [|apply split_on_free|constructor].
  cbn [app] in Heq. fold (words_of paragraph) in Heq. rewrite <- Heq.
  destruct cur' as [|w cur']; [by rewrite app_nil_r|].
  rewrite List.map_app, List.concat_app. cbn [List.map List.concat].
  by rewrite words_of_join, app_nil_r.
Qed.

(** X20. Wrapping loses no word and adds none: read line by line, the
    words of the wrapped text are the words of the paragraphs of the
    text, in the same order. *)
Theorem wrap_text_words text :
  List.concat (List.map words_of (wrap_text size max_width text))
  = List.concat (List.map words_of (split_on "010" text)).
Proof.
  unfold wrap_text.
  assert (forall ps acc,
            List.concat (List.map words_of
                           (fold_left (wrap_paragraph size max_width) ps acc))
            = List.concat (List.map words_of acc)
                ++ List.concat (List.map words_of ps)) as H.
  { induction ps as [|p ps IH]; intros acc; cbn [fold_left List.map List.concat].
    - by rewrite app_nil_r.
    - rewrite IH, wrap_paragraph_words, <- app_assoc. done. }
  apply (H _ []).
Qed.

Lemma join_single_free cur :
  Forall (fun w => free_of " " w = true) cur -> (length cur <= 1)%nat ->
  free_of " " (join cur) = true.
Proof.
  destruct cur as [|w [|w' cur]]; simpl; [done| |lia].
  by intros [Hw _]%Forall_cons_1 _.
Qed.

(** What may sit in [current_line]: words that fit together, or at most
    one word. *)
Local Abbreviation pending := (fun cur : list string =>
  Forall (fun w => free_of " " w = true) cur
  /\ (size (join cur) <= max_width \/ (length cur <= 1)%nat)).
Local Abbreviation line_ok := (fun line : string =>
  size line <= max_width \/ free_of " " line = true).

Lemma pending_line_ok cur : pending cur -> line_ok (join cur).
Proof. intros [Hf [?|?]]; [by left|right; by apply join_single_free]. Qed.

Lemma wrap_words_fit ws lines cur lines' cur' :
  Forall (fun w => free_of " " w = true) ws ->
  Forall line_ok lines -> pending cur ->
  wrap_words size max_width ws lines cur = (lines', cur') ->
  Forall line_ok lines' /\ pending cur'.
Proof.
  revert lines cur. induction ws as [|w ws IH]; intros lines cur Hws Hl Hc.
  { by intros [= <- <-]. }
  apply Forall_cons_1 in Hws as [Hw Hws]. cbn [wrap_words].
  destruct (nonempty w); [|by apply IH].
  destruct (size (join (cur ++ [w])) <=? max_width) eqn:E.
  - apply IH; [done..|]. apply Z.leb_le in E. split; [|by left].
    apply Forall_app. split; [by destruct Hc|by constructor].
  - apply IH; [done| |].
    + apply Forall_app. split; [done|]. constructor; [|done].
      by apply pending_line_ok.
    + split; [by constructor|right; simpl; lia].
Qed.

(** X21. Every line [wrap_text] returns that holds a space fits in
    [max_width]: a line is wider only when it is a single word. *)
Theorem wrap_text_fits text :
  Forall (fun line => size line <= max_width \/ free_of " " line = true)
    (wrap_text size max_width text).
Proof.
  unfold wrap_text.
  assert (forall ps acc, Forall line_ok acc ->
            Forall line_ok (fold_left (wrap_paragraph size max_width) ps acc)) as H.
  { induction ps as [|p ps IH]; intros acc Hacc; cbn [fold_left]; [done|].
    apply IH. unfold wrap_paragraph.
    destruct (wrap_words size max_width (split_on " " p) acc []) as [lines' cur'] eqn:Hw.
    apply wrap_words_fit in Hw as [Hl Hc]; [|apply split_on_free|done|].
    - destruct cur' as [|w cur']; [done|]. apply Forall_app. split; [done|].
      constructor; [|done]. by apply pending_line_ok.
    - split; [constructor|right; simpl; lia]. }
  apply H. constructor.
Qed.

End Wrap.

(** ** Which filling the search returns *)

Section SolveLoopLeast.
Variable rec : Grid.t -> option (bool * Grid.t).
Variables (g : Grid.t) (row col : nat) (n : nat).
Hypothesis rec_post : forall x b x',
  grid9 (Grid.model x) = true -> rec x = Some (b, x') -> solve_post x b x'.
Hypothesis rec_runs : forall x,
  grid9 (Grid.model x) = true -> (count_empty (Grid.model x) < n)%nat ->
  exists b x', rec x = Some (b, x')
               /\ ((exists s, filling (Grid.model x) s) -> b = true).
Hypothesis rec_least : forall x x',
  grid9 (Grid.model x) = true -> (count_empty (Grid.model x) < n)%nat ->
  rec x = Some (true, x') ->
  forall s, filling (Grid.model x) s ->
            s = Grid.model x' \/ lex_before (Grid.model x') s.
Hypothesis g_shape : grid9 (Grid.model g) = true.
Hypothesis row_lt : (row < 9)%nat.
Hypothesis col_lt : (col < 9)%nat.
Hypothesis g_empty : cell (Grid.model g) row col = 0.
Hypothesis g_first : forall i j, (i < 9)%nat -> (j < 9)%nat ->
  scanned_before (i, j) (row, col) -> cell (Grid.model g) i j <> 0.
Hypothesis g_count : (count_empty (Grid.model g) <= n)%nat.

Lemma solve_loop_least ds g' :
  Forall (fun d => 1 <= d <= 9) ds -> StronglySorted Z.lt ds ->
  (forall s, filling (Grid.model g) s -> cell s row col ∈ ds) ->
  Grid.solve_loop rec row col ds g = Some (true, g') ->
  forall s, filling (Grid.model g) s ->
            s = Grid.model g' \/ lex_before (Grid.model g') s.
Proof.
  induction ds as [|d ds IH]; intros Hds Hsorted Hin; [done|].
  apply Forall_cons_1 in Hds as [Hd Hds].
  apply StronglySorted_inv in Hsorted as [Hsorted Hlt].
  cbn [Grid.solve_loop].
  pose proof (grid9_set_cell (Grid.model g) row col d g_shape) as Hshape1.
  pose proof (count_empty_set_cell (Grid.model g) row col d
                g_shape row_lt col_lt g_empty) as Hcount.
  destruct (valid (Grid.model g) d (row, col)) eqn:Hv.
  - destruct (rec_runs (Grid.with_model g (set_cell (Grid.model g) row col d)))
      as (b1 & g1 & Hrec & Hb1); [done|rewrite with_model_model; lia|].
    rewrite Hrec. destruct b1.
    + intros [= <-] s Hs.
      destruct (proj1 (elem_of_cons _ _ _) (Hin s Hs)) as [Heq|Hin'].
      * apply (rec_least (Grid.with_model g (set_cell (Grid.model g) row col d)));
          [done|rewrite with_model_model; lia|done|].
        rewrite with_model_model, <- Heq. by apply filling_down.
      * right. apply rec_post in Hrec as (_ & _ & (_ & Hk1 & _)); [|done].
        rewrite with_model_model in Hk1. destruct Hs as (_ & Hk & _).
        exists row, col. split_and!; [done..| |].
        -- pose proof (cell_set_cell_eq (Grid.model g) row col d
                         g_shape row_lt col_lt) as Hcd.
           rewrite Hk1, Hcd by (done || lia).
           rewrite Forall_forall in Hlt.
           first [by apply Hlt|apply Hlt; by apply list_elem_of_In].
        -- intros i j Hi Hj Hbefore.
           assert ((row, col) <> (i, j)) as Hne.
           { intros [= <- <-]. destruct Hbefore as [?|[_ ?]]; simpl in *; lia. }
           pose proof (g_first i j Hi Hj Hbefore) as Hnz.
           rewrite Hk1, Hk by (done || by rewrite cell_set_cell_ne).
           by rewrite cell_set_cell_ne.
    + pose proof Hrec as Hp. apply rec_post in Hp; [|done].
      apply solve_post_false in Hp as ->.
      rewrite with_model_model, with_model_twice, set_cell_undo by done.
      rewrite with_model_id. apply IH; [done..|].
      intros s Hs. destruct (proj1 (elem_of_cons _ _ _) (Hin s Hs)) as [Heq|Hin']; [|done].
      assert (false = true); [|done]. apply Hb1. exists s.
      rewrite with_model_model, <- Heq. by apply filling_down.
  - apply IH; [done..|]. intros s Hs.
    destruct (proj1 (elem_of_cons _ _ _) (Hin s Hs)) as [<-|Hin']; [|done].
    rewrite filling_valid in Hv by done. done.
Qed.

End SolveLoopLeast.

Lemma digits_sorted : StronglySorted Z.lt (seqZ 1 9).
Proof. repeat (constructor; [|repeat constructor; lia]). constructor. Qed.

Lemma solve_least fuel g g' :
  grid9 (Grid.model g) = true -> (count_empty (Grid.model g) < fuel)%nat ->
  Grid.solve fuel g = Some (true, g') ->
  forall s, filling (Grid.model g) s ->
            s = Grid.model g' \/ lex_before (Grid.model g') s.
Proof.
  revert g g'. induction fuel as [|fuel IH]; intros g g' Hg Hlt; [lia|].
  rewrite solve_unfold.
  destruct (find_empty (Grid.model g)) as [[r c]|] eqn:Hfind.
  - pose proof (find_empty_Some _ r c Hg Hfind) as (Hr & Hc & H0).
    pose proof (fun i j => find_empty_before _ r c i j Hg Hfind) as Hfirst.
    apply (solve_loop_least (Grid.solve fuel) g r c fuel);
      [intros x b x'; apply solve_returns_post|apply solve_runs|apply IH|done..
      |lia|apply digits_range|apply digits_sorted|].
    intros s Hs. by eapply filling_digit.
  - intros [= <-] s (Hs & Hk & _). left. apply matrix_ext; [done..|].
    intros i j Hi Hj. apply Hk; [done..|]. by apply find_empty_None.
Qed.

(** X22. Of all the ways to complete the grid the search returns the
    first in its own order, digits ascending along the row-major scan:
    any other filling, and so any other Sudoku solution that keeps the
    givens, holds a larger digit at the first cell where it differs. *)
Theorem solve_first_solution g fuel g' :
  grid9 (Grid.model g) = true -> (count_empty (Grid.model g) < fuel)%nat ->
  Grid.solve fuel g = Some (true, g') ->
  (forall s, filling (Grid.model g) s ->
             s = Grid.model g' \/ lex_before (Grid.model g') s)
  /\ (forall s, sudoku_solution s -> keeps_givens (Grid.model g) s ->
                s = Grid.model g' \/ lex_before (Grid.model g') s).
Proof.
  intros Hg Hlt Hs. split.
  - by apply (solve_least fuel).
  - intros s Hsol Hk. apply (solve_least fuel g g'); [done..|].
    by apply solution_filling.
Qed.

Lemma solve_first_solution_witness :
  exists g', Grid.solve 4 (Grid.init three_holes) = Some (true, g')
    /\ forall s, sudoku_solution s -> keeps_givens three_holes s ->
                 s = Grid.model g' \/ lex_before (Grid.model g') s.
Proof.
  eexists. split; [vm_compute; reflexivity|].
  eapply (solve_first_solution (Grid.init three_holes) 4);
    [reflexivity|vm_compute; lia|vm_compute; reflexivity].
Defined.

(** ** What [place] accepts *)

Lemma place_set_model g row col d :
  Grid.wf g = true -> (row < 9)%nat -> (col < 9)%nat ->
  Grid.model (Grid.place_set g row col d)
  = set_cell (Grid.model (Grid.update_model g)) row col d.
Proof.
  intros Hw Hr Hc. pose proof (grid9_update_model g Hw) as Hg0.
  apply matrix_ext; [by apply place_g1_shape|by apply grid9_set_cell|].
  intros i j Hi Hj. rewrite place_g1_cell by done.
  destruct (decide ((i, j) = (row, col))) as [[= -> ->]|Hne].
  - by rewrite cell_set_cell_eq.
  - rewrite cell_set_cell_ne by congruence. by rewrite cell_update_model.
Qed.

(** X23. On a board whose digits do not conflict, [place] accepts a digit
    1..9 for the selected empty cell exactly when the board with that
    digit can still be completed to a Sudoku solution; otherwise it
    answers [False]. *)
Theorem place_accepts_iff_completable g row col d fuel :
  Grid.wf g = true -> Grid.selected g = Some (row, col) ->
  (row < 9)%nat -> (col < 9)%nat ->
  Cube.value (Grid.cube g row col) = 0 -> 1 <= d <= 9 ->
  (forall i j, (i < 9)%nat -> (j < 9)%nat -> 0 <= Cube.value (Grid.cube g i j) <= 9) ->
  ~ givens_conflict (Grid.model (Grid.update_model g)) ->
  (81 < fuel)%nat ->
  exists b g',
    Grid.place fuel g d = Return (Some b, g')
    /\ (b = true <->
        exists s, sudoku_solution s
                  /\ keeps_givens (Grid.model (Grid.update_model g)) s
                  /\ cell s row col = d).
Proof.
  intros Hw Hsel Hr Hc Hz Hd Hrange Hcons Hfuel.
  set (m0 := Grid.model (Grid.update_model g)) in *.
  pose proof (grid9_update_model g Hw) as Hg0. fold m0 in Hg0.
  pose proof (place_set_model g row col d Hw Hr Hc) as Hm1. fold m0 in Hm1.
  pose proof (place_g1_shape g row col d Hw) as Hshape.
  assert (cell m0 row col = 0) as Hz0
    by (unfold m0; by rewrite cell_update_model).
  assert (forall s, keeps_givens m0 s -> cell s row col = d ->
                    keeps_givens (set_cell m0 row col d) s) as Hkeep.
  { intros s Hk Hsd i j Hi Hj Hne.
    destruct (decide ((row, col) = (i, j))) as [[= <- <-]|Hp].
    - by rewrite cell_set_cell_eq.
    - rewrite cell_set_cell_ne in * by done. by apply Hk. }
  assert ((exists s, sudoku_solution s /\ keeps_givens m0 s /\ cell s row col = d)
          -> valid (set_cell m0 row col d) d (row, col) = true
             /\ exists s, filling (set_cell m0 row col d) s) as Hex.
  { intros (s & Hsol & Hk & Hsd). split.
    - apply valid_true_no_clash; [by apply grid9_set_cell|done..|].
      rewrite clash_set_cell_self. intros (i & j & Hi & Hj & Hne & Hu & He).
      destruct Hsol as (_ & _ & Hno). apply (Hno row col Hr Hc).
      exists i, j. split_and!; [done..|]. rewrite Hsd, Hk; [done..|lia].
    - exists s. apply solution_filling; [done|by apply Hkeep]. }
  assert (forall s, valid (set_cell m0 row col d) d (row, col) = true ->
                    filling (set_cell m0 row col d) s ->
                    sudoku_solution s /\ keeps_givens m0 s /\ cell s row col = d)
    as Hback.
  { intros s Hv Hf.
    assert (cell s row col = d) as Hsd.
    { destruct Hf as (_ & Hk & _).
      pose proof (cell_set_cell_eq m0 row col d Hg0 Hr Hc) as Hcd.
      rewrite Hk, Hcd by (done || lia). done. }
    assert (keeps_givens m0 s) as Hk0.
    { intros i j Hi Hj Hne. destruct Hf as (_ & Hk & _).
      assert ((row, col) <> (i, j)) as Hp by (intros [= <- <-]; done).
      rewrite <- (cell_set_cell_ne m0 row col d i j Hp). apply Hk; [done..|].
      by rewrite cell_set_cell_ne. }
    split_and!; [|done..].
    apply (filling_consistent (set_cell m0 row col d)); [| |done].
    - intros i j Hi Hj. destruct (decide ((row, col) = (i, j))) as [[= <- <-]|Hp].
      + rewrite cell_set_cell_eq by done. lia.
      + rewrite cell_set_cell_ne by done. unfold m0.
        rewrite cell_update_model by done. by apply Hrange.
    - apply (valid_true_no_clash _ d row col (grid9_set_cell _ _ _ _ Hg0) Hr Hc) in Hv.
      intros (i & j & Hi & Hj & Hne & (i' & j' & Hi' & Hj' & Hp & Hu & He)).
      destruct (decide ((i, j) = (row, col))) as [[= -> ->]|Hij].
      { apply Hv. rewrite cell_set_cell_eq in He by done.
        exists i', j'. by split_and!. }
      destruct (decide ((i', j') = (row, col))) as [[= -> ->]|Hij'].
      { apply Hv. rewrite cell_set_cell_eq in He by done.
        exists i, j. split_and!; [done..|by apply same_unit_sym|done]. }
      apply Hcons. rewrite !cell_set_cell_ne in * by congruence.
      exists i, j. split_and!; [done..|]. exists i', j'. by split_and!. }
  unfold Grid.place. rewrite Hsel. apply Z.eqb_eq in Hz. rewrite Hz. cbv zeta.
  rewrite Hm1.
  destruct (valid (set_cell m0 row col d) d (row, col)) eqn:Hv.
  - destruct (solve_runs fuel (Grid.place_set g row col d) Hshape)
      as (b & g2 & Hs & Hb).
    { pose proof (count_empty_bound _ Hshape). lia. }
    rewrite Hs. pose proof (solve_returns_post _ _ _ _ Hshape Hs) as (_ & _ & Hpost).
    rewrite Hm1 in Hb, Hpost. destruct b.
    + exists true, g2. split; [done|]. split; [|done]. intros _.
      exists (Grid.model g2). by apply Hback.
    + eexists false, _. split; [done|]. split; [done|].
      intros Hsol. apply Hex in Hsol as [_ Hfill]. by apply Hb.
  - eexists false, _. split; [done|]. split; [done|].
    intros Hsol. apply Hex in Hsol as [Hv' _]. congruence.
Qed.

Lemma place_accepts_iff_completable_witness :
  exists b g',
    Grid.place 82 (game three_holes 0 0 3) 3 = Return (Some b, g')
    /\ (b = true <->
        exists s, sudoku_solution s
                  /\ keeps_givens
                       (Grid.model (Grid.update_model (game three_holes 0 0 3))) s
                  /\ cell s 0 0 = 3).
Proof.
  destruct (givens_check_sound
              (Grid.model (Grid.update_model (game three_holes 0 0 3))))
    as [Hrange Hcons]; [reflexivity|vm_compute; reflexivity|].
  apply (place_accepts_iff_completable (game three_holes 0 0 3) 0 0 3 82);
    [reflexivity|reflexivity|lia|lia|reflexivity|lia| |exact Hcons|lia].
  intros i j Hi Hj.
  rewrite <- (cell_update_model (game three_holes 0 0 3)) by (reflexivity || done).
  by apply Hrange.
Defined.

(** ** A word wider than the line *)

Section WrapWide.
Variable size : string -> Z.
Variable max_width : Z.

(** The loop only appends to [lines], and a started line stays started. *)
Lemma wrap_words_grows ws lines cur lines' cur' :
  wrap_words size max_width ws lines cur = (lines', cur') ->
  (exists more, lines' = lines ++ more) /\ (cur <> [] -> cur' <> []).
Proof.
  revert lines cur. induction ws as [|w ws IH]; intros lines cur; cbn [wrap_words].
  { intros [= <- <-]. split; [exists []; by rewrite app_nil_r|done]. }
  destruct (nonempty w); [|by apply IH].
  destruct (size (join (cur ++ [w])) <=? max_width).
  - intros H. apply IH in H as [Hm Hc]. split; [done|].
    intros _. apply Hc. by destruct cur.
  - intros H. apply IH in H as [[more ->] Hc]. split.
    + exists (join cur :: more). by rewrite <- app_assoc.
    + intros _. by apply Hc.
Qed.

(** X24. A paragraph that begins with a word wider than [max_width] is
    given an empty line first: alone it wraps to an empty line and the
    word, and followed by more text to an empty line and what follows. *)
Theorem wrap_wide_first_word lines w rest :
  free_of " " w = true -> nonempty w = true -> max_width < size w ->
  wrap_paragraph size max_width lines w = lines ++ [""%string; w]
  /\ exists tail,
       wrap_paragraph size max_width lines (w +:+ String " " rest)
       = lines ++ ""%string :: tail.
Proof.
  intros Hfree Hne Hwide. apply Z.leb_gt in Hwide. split.
  - unfold wrap_paragraph. rewrite split_on_word by done.
    cbn [wrap_words app]. rewrite Hne.
    change (join [w]) with w. rewrite Hwide. cbn [wrap_words].
    by rewrite <- app_assoc.
  - unfold wrap_paragraph. rewrite split_on_app by done.
    cbn [wrap_words app]. rewrite Hne.
    change (join [w]) with w. rewrite Hwide.
    destruct (wrap_words size max_width (split_on " " rest)
                (lines ++ [join []]) [w]) as [lines' cur'] eqn:Hw.
    apply wrap_words_grows in Hw as [[more ->] Hc].
    destruct cur' as [|c cur']; [by destruct Hc|].
    exists (more ++ [join (c :: cur')]). by rewrite <- !app_assoc.
Qed.

End WrapWide.

Lemma wrap_wide_first_word_witness :
  wrap_paragraph (fun s => Z.of_nat (String.length s)) 5 [] "abcdefgh"
  = [""; "abcdefgh"]%string
  /\ exists tail,
       wrap_paragraph (fun s => Z.of_nat (String.length s)) 5 []
         ("abcdefgh" +:+ String " " "xy")
       = ""%string :: tail.
Proof.
  apply (wrap_wide_first_word (fun s => Z.of_nat (String.length s)) 5 []
           "abcdefgh" "xy"); [reflexivity|reflexivity|by vm_compute].
Defined.

(** ** Keys before a cell is selected *)

(** X25. RETURN and DELETE need a selected cell: while [self.selected] is
    [None], as it is after the constructor, both raise the [TypeError] of
    unpacking it; once a cell of the grid is selected, DELETE returns and,
    with fuel for 81 cells, so does RETURN, whatever the board holds. *)
Theorem keys_need_selection g fuel strikes :
  Grid.wf g = true -> (81 < fuel)%nat ->
  (Grid.selected g = None ->
   on_return fuel g strikes = TypeError /\ Grid.clear g = TypeError)
  /\ (forall row col,
        Grid.selected g = Some (row, col) -> (row < 9)%nat -> (col < 9)%nat ->
        (exists r, on_return fuel g strikes = Return r)
        /\ exists g', Grid.clear g = Return g').
Proof.
  intros Hw Hfuel. split.
  - intros Hsel. unfold on_return, Grid.clear. by rewrite Hsel.
  - intros row col Hsel Hr Hc. split.
    + unfold on_return. rewrite Hsel.
      destruct (negb (Cube.temp (Grid.cube g row col) =? 0)); [|by eexists].
      destruct (place_returns g row col (Cube.temp (Grid.cube g row col))
                  Hw Hsel Hr Hc fuel Hfuel) as (r & g' & ->).
      by eexists.
    + unfold Grid.clear. rewrite Hsel.
      destruct (Cube.value (Grid.cube g row col) =? 0); by eexists.
Qed.

Lemma keys_need_selection_witness :
  on_return 82 (Grid.init two_holes) 0 = TypeError
  /\ Grid.clear (Grid.init two_holes) = TypeError.
Proof.
  apply (keys_need_selection (Grid.init two_holes) 82 0); [reflexivity|lia|reflexivity].
Defined.
